(** * The codex app-server client: JSON-RPC session core

    A shallow embedding of [CodexAppServerClient] (the JSON-RPC client that
    drives the codex app-server child process): message classification, the
    pending-request table, the turn registry with its timers, and the fixed
    policy for server-initiated requests.

    Conventions of the embedding.
    - A decoded line is a [json] value, as [JSON.parse] produces it.  JSON
      numbers are restricted to integers ([Z]), rendered in decimal by
      [String(n)]; strings are byte strings holding the UTF-8 form of the
      text.
    - [undefined] is [None] in [jsval := option json].
    - The client object is a record [client]; a method that mutates it is a
      function [client -> outcome A * client].  The client after a throwing
      call is returned as well, since mutations made before a [throw] persist.
    - A promise is named by a handle; calling its [resolve] or [reject]
      appends to the log [calls].  A promise is settled by the first call in
      the log that names it, later calls on it have no effect.
    - Where the code relies on a declared type without checking it and a value of
      another type would have to be coerced or used as a [Map] key by object
      identity, the embedding answers [IllTyped]. *)

From Stdlib Require Import ZArith Ascii String List Lia.
From stdpp Require Import base option list gmap strings pretty.

Set Warnings "-register-all".

(** ** Decoded JSON *)

Inductive json : Type :=
| JNull
| JBool (b : bool)
| JNum (n : Z)
| JStr (s : string)
| JArr (items : list json)
| JObj (fields : list (string * json)).

(** A JavaScript value that may be [undefined]. *)
Definition jsval : Type := option json.

(** What is thrown: [new Error(message)], or the [TypeError] of the
    runtime. *)
Inductive exn : Type :=
| Error (message : string)
| TypeError.

Inductive outcome (A : Type) : Type :=
| Ret (a : A)
| Exn (e : exn)
| IllTyped.
Arguments Ret {A} a.
Arguments Exn {A} e.
Arguments IllTyped {A}.

(** The value of property [k] of a decoded object, whose properties are
    listed, each name once; the first binding of [k] is taken. *)
Fixpoint field (k : string) (fs : list (string * json)) : jsval :=
  match fs with
  | [] => None
  | (k', v) :: fs' => if decide (k = k') then Some v else field k fs'
  end.

(** [k in v], for the property names the client tests ([id], [method],
    [result], [error]): none of them is a property of an array, and [in]
    throws on a value that is not an object. *)
Definition js_in (k : string) (v : json) : outcome bool :=
  match v with
  | JObj fs => Ret (bool_decide (is_Some (field k fs)))
  | JArr _ => Ret false
  | _ => Exn TypeError
  end.

(** [v.k] and [v?.k] for the property names the client reads: a value that is
    not an object has none of them.  The client reads [v.k] only from a [v]
    it has found truthy or has tested with [in], so the read never throws. *)
Definition get (k : string) (v : jsval) : jsval :=
  match v with
  | Some (JObj fs) => field k fs
  | _ => None
  end.

(** Truthiness. *)
Definition truthy (v : jsval) : bool :=
  match v with
  | None | Some JNull | Some (JBool false) | Some (JNum 0) | Some (JStr "") => false
  | Some _ => true
  end.

(** [v ?? d] *)
Definition nullish_or (v : jsval) (d : json) : json :=
  match v with
  | None | Some JNull => d
  | Some x => x
  end.

(** [v === "s"] *)
Definition is_str (s : string) (v : jsval) : bool :=
  match v with
  | Some (JStr s') => bool_decide (s' = s)
  | _ => false
  end.

(** [typeof v === "string"] *)
Definition is_string (v : jsval) : bool :=
  match v with
  | Some (JStr _) => true
  | _ => false
  end.

(** An object literal as [JSON.stringify] writes it: a property whose value
    is [undefined] is left out. *)
Fixpoint mkobj (fs : list (string * jsval)) : list (string * json) :=
  match fs with
  | [] => []
  | (k, Some v) :: fs' => (k, v) :: mkobj fs'
  | (_, None) :: fs' => mkobj fs'
  end.

(** ** [String.prototype.trim] *)

Definition ws1 (a : ascii) : bool :=
  match N_of_ascii a with
  | 9 | 10 | 11 | 12 | 13 | 32 => true
  | _ => false
  end%N.

(** U+00A0, given its two bytes. *)
Definition ws2 (a b : ascii) : bool :=
  match N_of_ascii a, N_of_ascii b with
  | 194, 160 => true
  | _, _ => false
  end%N.

(** U+1680, U+2000 to U+200A, U+2028, U+2029, U+202F, U+205F, U+3000 and
    U+FEFF, given their three bytes. *)
Definition ws3 (a b c : ascii) : bool :=
  match N_of_ascii a, N_of_ascii b, N_of_ascii c with
  | 225, 154, 128 => true
  | 226, 128, n => (128 <=? n)%N && (n <=? 138)%N || (n =? 168)%N || (n =? 169)%N || (n =? 175)%N
  | 226, 129, 159 => true
  | 227, 128, 128 => true
  | 239, 187, 191 => true
  | _, _, _ => false
  end%N.

(** Drops leading white space; with [back] the bytes are those of the
    reversed string. *)
Fixpoint strip (back : bool) (l : list ascii) : list ascii :=
  match l with
  | a :: l1 =>
      if ws1 a then strip back l1 else
      match l1 with
      | b :: l2 =>
          if (if back then ws2 b a else ws2 a b) then strip back l2 else
          match l2 with
          | c :: l3 =>
              if (if back then ws3 c b a else ws3 a b c) then strip back l3 else l
          | [] => l
          end
      | [] => l
      end
  | [] => l
  end.

Definition trim (s : string) : string :=
  string_of_list_ascii
    (rev (strip true (rev (strip false (list_ascii_of_string s))))).

(** ** Wire types and classification *)

Inductive JsonRpcId : Type :=
| IdNum (n : Z)
| IdStr (s : string).

Record RpcError : Type := {
  code : Z;
  message : string;
  data : jsval
}.

Inductive JsonRpcMessage : Type :=
| Request (id : JsonRpcId) (method : string) (params : jsval)
| Notification (method : string) (params : jsval)
| Response (id : JsonRpcId) (result : jsval) (error : option RpcError).

Definition json_of_id (id : JsonRpcId) : json :=
  match id with
  | IdNum n => JNum n
  | IdStr s => JStr s
  end.

Definition json_of_error (e : RpcError) : json :=
  JObj (mkobj [("code", Some (JNum (code e)));
               ("message", Some (JStr (message e)));
               ("data", data e)]).

(** The decoded form of a typed message. *)
Definition encode (m : JsonRpcMessage) : json :=
  match m with
  | Request id method params =>
      JObj (mkobj [("jsonrpc", Some (JStr "2.0")); ("id", Some (json_of_id id));
                   ("method", Some (JStr method)); ("params", params)])
  | Notification method params =>
      JObj (mkobj [("jsonrpc", Some (JStr "2.0"));
                   ("method", Some (JStr method)); ("params", params)])
  | Response id result error =>
      JObj (mkobj [("jsonrpc", Some (JStr "2.0")); ("id", Some (json_of_id id));
                   ("result", result); ("error", json_of_error <$> error)])
  end.

(** A Response carries a result or an error. *)
Definition valid_message (m : JsonRpcMessage) : bool :=
  match m with
  | Response _ None None => false
  | _ => true
  end.

(** [a && b] and [a || b] over tests that may throw. *)
Definition and_then (a b : outcome bool) : outcome bool :=
  match a with
  | Ret true => b
  | _ => a
  end.

Definition or_else (a b : outcome bool) : outcome bool :=
  match a with
  | Ret false => b
  | _ => a
  end.

Definition not_ (a : outcome bool) : outcome bool :=
  match a with
  | Ret x => Ret (negb x)
  | _ => a
  end.

Definition isRpcRequest (message : json) : outcome bool :=
  and_then (js_in "id" message)
    (and_then (js_in "method" message)
       (and_then (not_ (js_in "result" message)) (not_ (js_in "error" message)))).

Definition isRpcResponse (message : json) : outcome bool :=
  and_then (js_in "id" message)
    (or_else (js_in "result" message) (js_in "error" message)).

Definition isRpcNotification (message : json) : outcome bool :=
  and_then (not_ (js_in "id" message)) (js_in "method" message).

(** [normalizeId]: a number becomes its decimal string, anything else is
    returned as it is. *)
Definition normalizeId (id : jsval) : jsval :=
  match id with
  | Some (JNum n) => Some (JStr (pretty n))
  | _ => id
  end.

(** ** The client object *)

Inductive Status : Type := completed | failed | interrupted.

(** [error] is declared a string; it holds whatever the notification gave as
    the turn's error message, or the default. *)
Record CodexTurnResult : Type := {
  status : Status;
  outputText : option string;
  error : jsval
}.

Record CodexAppServerOptions : Type := {
  command : string;
  args : list string;
  cwd : option string;
  autoApprove : bool
}.

(** The tracker's [resolve] and [reject] are those of the promise that
    [trackTurn] created; [promise] is its handle.  The timer that [trackTurn]
    sets has the same handle. *)
Record TurnTracker : Type := {
  threadId : string;
  turnId : string;
  lastAgentText : string;
  lastNonEmptyText : string;
  itemTexts : gmap string string;
  promise : nat;
  timeout : option nat
}.

Inductive settlement (A : Type) : Type :=
| Fulfilled (v : A)
| Rejected (e : exn).
Arguments Fulfilled {A} v.
Arguments Rejected {A} e.

(** A call of a promise's [resolve] or [reject].  The promise that
    [sendRequest] creates is named by the request id it allocated. *)
Inductive call : Type :=
| RequestCall (id : Z) (s : settlement jsval)
| TurnCall (p : nat) (s : settlement CodexTurnResult).

(** The child process: the lines written to its input stream so far, when it
    has one. *)
Record ChildProcess : Type := {
  stdin : option (list json)
}.

(** The fields of the client object that the session core reads or writes,
    and what it has set in motion outside itself: [pending] maps the string
    key of a request to the promise of the [sendRequest] call that made the
    entry (the entry's [resolve] and [reject] are that promise's); [timers]
    holds the timers that are armed, each with the turn id its callback
    captured and its delay; [nextTurn] is the next handle [trackTurn] will
    use; [calls] is the log of calls of [resolve] and [reject]. *)
Record client : Type := {
  opts : CodexAppServerOptions;
  child : option ChildProcess;
  nextId : Z;
  pending : gmap string Z;
  turns : gmap string TurnTracker;
  timers : gmap nat (string * Z);
  nextTurn : nat;
  calls : list call
}.

Definition new_client (o : CodexAppServerOptions) : client :=
  {| opts := o; child := None; nextId := 1; pending := ∅; turns := ∅;
     timers := ∅; nextTurn := 0; calls := [] |}.

Definition set_child (x : option ChildProcess) (c : client) : client :=
  {| opts := opts c; child := x; nextId := nextId c; pending := pending c;
     turns := turns c; timers := timers c; nextTurn := nextTurn c; calls := calls c |}.

Definition set_nextId (x : Z) (c : client) : client :=
  {| opts := opts c; child := child c; nextId := x; pending := pending c;
     turns := turns c; timers := timers c; nextTurn := nextTurn c; calls := calls c |}.

Definition set_pending (x : gmap string Z) (c : client) : client :=
  {| opts := opts c; child := child c; nextId := nextId c; pending := x;
     turns := turns c; timers := timers c; nextTurn := nextTurn c; calls := calls c |}.

Definition set_turns (x : gmap string TurnTracker) (c : client) : client :=
  {| opts := opts c; child := child c; nextId := nextId c; pending := pending c;
     turns := x; timers := timers c; nextTurn := nextTurn c; calls := calls c |}.

Definition set_timers (x : gmap nat (string * Z)) (c : client) : client :=
  {| opts := opts c; child := child c; nextId := nextId c; pending := pending c;
     turns := turns c; timers := x; nextTurn := nextTurn c; calls := calls c |}.

Definition set_nextTurn (x : nat) (c : client) : client :=
  {| opts := opts c; child := child c; nextId := nextId c; pending := pending c;
     turns := turns c; timers := timers c; nextTurn := x; calls := calls c |}.

(** Calling [resolve] or [reject]. *)
Definition settle (k : call) (c : client) : client :=
  {| opts := opts c; child := child c; nextId := nextId c; pending := pending c;
     turns := turns c; timers := timers c; nextTurn := nextTurn c;
     calls := calls c ++ [k] |}.

(** *** What a caller observes of its promise *)

Definition request_calls (id : Z) (l : list call) : list (settlement jsval) :=
  omap (λ k, match k with
             | RequestCall id' s => if decide (id' = id) then Some s else None
             | _ => None
             end) l.

Definition turn_calls (p : nat) (l : list call) : list (settlement CodexTurnResult) :=
  omap (λ k, match k with
             | TurnCall p' s => if decide (p' = p) then Some s else None
             | _ => None
             end) l.

(** The state of the promise: still pending ([None]), or settled by the
    first call made on it. *)
Definition request_promise (id : Z) (c : client) : option (settlement jsval) :=
  head (request_calls id (calls c)).

Definition turn_promise (p : nat) (c : client) : option (settlement CodexTurnResult) :=
  head (turn_calls p (calls c)).

(** ** Methods *)

(** A method: the outcome of the call, and the client after it. *)
Definition M (A : Type) : Type := client → outcome A * client.

(** [writeMessage]: a line is the document that [JSON.stringify] serializes,
    followed by a newline; the document is what is kept. *)

Definition writeMessage (message : json) : M unit := λ c,
  match child c with
  | Some {| stdin := Some lines |} =>
      (Ret tt, set_child (Some {| stdin := Some (lines ++ [message]) |}) c)
  | _ => (Exn (Error "codex app-server not running"), c)
  end.

(** [sendRequest] up to the promise it returns.  The executor of [new
    Promise] runs at once; when it throws, the promise is rejected with what
    it threw.  [nextId] is a double in the code: the integer here is that
    number for as long as it is at most 2^53, where [nextId++] stops
    counting. *)
Definition sendRequest (method : string) (params : jsval) (c : client) : Z * client :=
  let id := nextId c in
  let c1 := set_nextId (id + 1) c in
  let payload := JObj (mkobj [("jsonrpc", Some (JStr "2.0")); ("id", Some (JNum id));
                              ("method", Some (JStr method)); ("params", params)]) in
  let c2 := set_pending (<[pretty id := id]> (pending c1)) c1 in
  match writeMessage payload c2 with
  | (Exn e, c3) => (id, settle (RequestCall id (Rejected e)) c3)
  | (_, c3) => (id, c3)
  end.

Definition sendNotification (method : string) (params : jsval) : M unit :=
  writeMessage (JObj (mkobj [("jsonrpc", Some (JStr "2.0"));
                             ("method", Some (JStr method)); ("params", params)])).

Definition sendResponse (id : jsval) (result : json) : M unit :=
  writeMessage (JObj (mkobj [("jsonrpc", Some (JStr "2.0")); ("id", id);
                             ("result", Some result)])).

Definition sendError (id : jsval) (code : Z) (message : string) : M unit :=
  writeMessage (JObj (mkobj [("jsonrpc", Some (JStr "2.0")); ("id", id);
                             ("error", Some (JObj [("code", JNum code);
                                                   ("message", JStr message)]))])).

(** [toError]; [None] when the message is not a string, which [new Error]
    would have to coerce. *)
Definition toError (response : json) : option exn :=
  match nullish_or (get "message" (get "error" (Some response)))
                   (JStr "Unknown JSON-RPC error") with
  | JStr message => Some (Error message)
  | _ => None
  end.

(** [Map.get] at a key that need not be a string: a [Map<string, V>] holds
    string keys only. *)
Definition map_get {V : Type} (key : jsval) (m : gmap string V) : option (string * V) :=
  match key with
  | Some (JStr k) => pair k <$> m !! k
  | _ => None
  end.

Definition handleServerRequest (request : json) : M unit := λ c,
  let method := get "method" (Some request) in
  let id := get "id" (Some request) in
  if is_str "item/commandExecution/requestApproval" method then
    let decision := if autoApprove (opts c) then "accept" else "decline" in
    sendResponse id (JObj [("decision", JStr decision)]) c
  else if is_str "item/fileChange/requestApproval" method then
    let decision := if autoApprove (opts c) then "accept" else "decline" in
    sendResponse id (JObj [("decision", JStr decision)]) c
  else if is_str "item/tool/requestUserInput" method then
    sendResponse id (JObj [("answers", JObj [])]) c
  else if is_str "item/tool/call" method then
    sendResponse id (JObj [("output", JStr "clawd does not support dynamic tool calls");
                           ("success", JBool false)]) c
  else if is_str "account/chatgptAuthTokens/refresh" method then
    sendError id (-32601) "auth token refresh unsupported" c
  else
    match method with
    | Some (JStr m) => sendError id (-32601) ("unsupported request: " +:+ m) c
    | _ => (IllTyped, c)
    end.

(** [clearTimeout]: a timer that was cleared never fires. *)
Definition clearTimeout (t : nat) (c : client) : client :=
  set_timers (delete t (timers c)) c.

(** The two notifications that carry agent text end the same way: record the
    text as last seen, and as last non-empty text when its trim is not
    empty. *)
Definition with_text (text : string) (items : gmap string string) (t : TurnTracker) : TurnTracker :=
  let trimmed := trim text in
  {| threadId := threadId t; turnId := turnId t;
     lastAgentText := text;
     lastNonEmptyText := if decide (trimmed = "") then lastNonEmptyText t else trimmed;
     itemTexts := items; promise := promise t; timeout := timeout t |}.

Definition handleNotification (method : jsval) (params : jsval) : M unit := λ c,
  if is_str "item/agentMessage/delta" method then
    let payload := params in
    if negb (truthy (get "turnId" payload)) || negb (truthy (get "itemId" payload))
       || negb (is_string (get "delta" payload))
    then (Ret tt, c)
    else
      match map_get (get "turnId" payload) (turns c) with
      | None => (Ret tt, c)
      | Some (key, tracker) =>
          match get "itemId" payload, get "delta" payload with
          | Some (JStr itemId), Some (JStr delta) =>
              let existing := default "" (itemTexts tracker !! itemId) in
              let next := existing +:+ delta in
              (Ret tt,
               set_turns (<[key := with_text next (<[itemId := next]> (itemTexts tracker))
                                     tracker]> (turns c)) c)
          | _, _ => (IllTyped, c)
          end
      end
  else if is_str "item/completed" method then
    let payload := params in
    let item := get "item" payload in
    if negb (truthy (get "turnId" payload)) || negb (truthy item)
       || negb (is_str "agentMessage" (get "type" item))
    then (Ret tt, c)
    else
      match map_get (get "turnId" payload) (turns c) with
      | None => (Ret tt, c)
      | Some (key, tracker) =>
          let text := match get "text" item with Some (JStr s) => s | _ => "" end in
          if truthy (get "id" item) then
            match get "id" item with
            | Some (JStr id) =>
                (Ret tt,
                 set_turns (<[key := with_text text (<[id := text]> (itemTexts tracker))
                                       tracker]> (turns c)) c)
            | _ => (IllTyped, c)
            end
          else
            (Ret tt,
             set_turns (<[key := with_text text (itemTexts tracker) tracker]> (turns c)) c)
      end
  else if is_str "turn/completed" method then
    let payload := params in
    let turn := get "turn" payload in
    let turnId := get "id" turn in
    if negb (truthy turnId) then (Ret tt, c)
    else
      match map_get turnId (turns c) with
      | None => (Ret tt, c)
      | Some (key, tracker) =>
          let c1 := set_turns (delete key (turns c)) c in
          let c2 := match timeout tracker with
                    | Some t => clearTimeout t c1
                    | None => c1
                    end in
          let status := get "status" turn in
          let resolve r := settle (TurnCall (promise tracker) (Fulfilled r)) c2 in
          if is_str "completed" status then
            (Ret tt, resolve {| status := completed;
                                outputText := Some (lastNonEmptyText tracker);
                                error := None |})
          else if is_str "interrupted" status then
            (Ret tt, resolve {| status := interrupted;
                                outputText := Some (lastNonEmptyText tracker);
                                error := None |})
          else
            let errorMessage :=
              nullish_or (get "message" (get "error" turn)) (JStr "codex turn failed") in
            (Ret tt, resolve {| status := failed;
                                outputText := Some (lastNonEmptyText tracker);
                                error := Some errorMessage |})
      end
  else (Ret tt, c).

(** [handleMessage].  The promise of [handleServerRequest] is dropped
    ([void]): a failed write there rejects a promise nobody awaits. *)
Definition handleMessage (message : json) : M unit := λ c,
  match isRpcResponse message with
  | Ret true =>
      let key := normalizeId (get "id" (Some message)) in
      match map_get key (pending c) with
      | None => (Ret tt, c)
      | Some (k, id) =>
          let c1 := set_pending (delete k (pending c)) c in
          if truthy (get "error" (Some message)) then
            match toError message with
            | Some e => (Ret tt, settle (RequestCall id (Rejected e)) c1)
            | None => (IllTyped, c)
            end
          else (Ret tt, settle (RequestCall id (Fulfilled (get "result" (Some message)))) c1)
      end
  | Ret false =>
      match isRpcRequest message with
      | Ret true =>
          match handleServerRequest message c with
          | (IllTyped, _) => (IllTyped, c)
          | (_, c') => (Ret tt, c')
          end
      | Ret false =>
          match isRpcNotification message with
          | Ret true => handleNotification (get "method" (Some message))
                                           (get "params" (Some message)) c
          | Ret false => (Ret tt, c)
          | Exn e => (Exn e, c)
          | IllTyped => (IllTyped, c)
          end
      | Exn e => (Exn e, c)
      | IllTyped => (IllTyped, c)
      end
  | Exn e => (Exn e, c)
  | IllTyped => (IllTyped, c)
  end.

(** [trackTurn] up to the promise it returns. *)
Definition trackTurn (threadId turnId : string) (timeoutMs : option Z) (c : client) : nat * client :=
  let p := nextTurn c in
  let c1 := set_nextTurn (S p) c in
  let armed := match timeoutMs with
               | Some ms => bool_decide (ms ≠ 0 ∧ 0 < ms)%Z
               | None => false
               end in
  let tracker := {| threadId := threadId; turnId := turnId;
                    lastAgentText := ""; lastNonEmptyText := "";
                    itemTexts := ∅; promise := p;
                    timeout := if armed then Some p else None |} in
  let c2 := if armed
            then set_timers (<[p := (turnId, default 0%Z timeoutMs)]> (timers c1)) c1
            else c1 in
  (p, set_turns (<[turnId := tracker]> (turns c2)) c2).

(** The callback of the timer that [trackTurn] set: runs when the timer is
    still armed. *)
Definition fireTimer (t : nat) (c : client) : client :=
  match timers c !! t with
  | Some (turnId, _) =>
      let c1 := set_timers (delete t (timers c)) c in
      let c2 := set_turns (delete turnId (turns c1)) c1 in
      settle (TurnCall t (Rejected (Error "codex turn timeout"))) c2
  | None => c
  end.

Module Params.
Record t : Type := {
  threadId : string;
  text : string;
  model : option string;
  effort : option string;
  summary : option string;
  approvalPolicy : option string;
  timeoutMs : option Z
}.
End Params.

(** [x ?? null] for an optional string. *)
Definition or_null (x : option string) : jsval :=
  Some (from_option JStr JNull x).

(** [runTurn], from the call of [sendRequest] on: the request it issues... *)
Definition runTurn_request (params : Params.t) (c : client) : Z * client :=
  sendRequest "turn/start"
    (Some (JObj (mkobj
       [("threadId", Some (JStr (Params.threadId params)));
        ("input", Some (JArr [JObj [("type", JStr "text");
                                    ("text", JStr (Params.text params));
                                    ("text_elements", JArr [])]]));
        ("cwd", Some JNull);
        ("approvalPolicy", or_null (Params.approvalPolicy params));
        ("sandboxPolicy", Some JNull);
        ("model", or_null (Params.model params));
        ("effort", or_null (Params.effort params));
        ("summary", or_null (Params.summary params));
        ("personality", Some JNull);
        ("outputSchema", Some JNull);
        ("collaborationMode", Some JNull)]))) c.

(** ... and what it does once that request's promise is fulfilled with
    [response]: it throws, or awaits the promise of [trackTurn], whose handle
    is returned. *)
Definition runTurn_resume (params : Params.t) (response : jsval) : M nat := λ c,
  let turnId := get "id" (get "turn" response) in
  if negb (truthy turnId) then
    (Exn (Error "codex app-server turn/start missing turn id"), c)
  else
    match turnId with
    | Some (JStr turnId) =>
        let '(p, c') := trackTurn (Params.threadId params) turnId (Params.timeoutMs params) c in
        (Ret p, c')
    | _ => (IllTyped, c)
    end.

(** ** Events

    What can happen to a client, one handler at a time: the child is spawned
    or dropped, a caller issues a request, a [runTurn] call resumes with the
    response to its [turn/start], a decoded line arrives, a timer fires, a
    notification is sent. *)
Inductive event : Type :=
| Spawn (with_stdin : bool)
| Stop
| SendRequest (method : string) (params : jsval)
| RunTurn (params : Params.t)
| ResumeTurn (params : Params.t) (response : jsval)
| Line (message : json)
| Timer (t : nat)
| SendNotification (method : string) (params : jsval).

(** One event; [None] when it leaves the embedding ([IllTyped]).  An
    exception ends the handler that threw and leaves the client as it was at
    that point. *)
Definition step (e : event) (c : client) : option client :=
  match e with
  | Spawn with_stdin =>
      Some (set_child (Some {| stdin := if with_stdin then Some [] else None |}) c)
  | Stop => Some (set_child None c)
  | SendRequest method params => Some (sendRequest method params c).2
  | RunTurn params => Some (runTurn_request params c).2
  | ResumeTurn params response =>
      match runTurn_resume params response c with
      | (IllTyped, _) => None
      | (_, c') => Some c'
      end
  | Line message =>
      match handleMessage message c with
      | (IllTyped, _) => None
      | (_, c') => Some c'
      end
  | Timer t => Some (fireTimer t c)
  | SendNotification method params => Some (sendNotification method params c).2
  end.

Fixpoint run (es : list event) (c : client) : option client :=
  match es with
  | [] => Some c
  | e :: es' =>
      match step e c with
      | Some c' => run es' c'
      | None => None
      end
  end.

(** The clients that a history of events produces from a new one. *)
Definition reachable (c : client) : Prop :=
  ∃ o es, run es (new_client o) = Some c.

(** ** The invariant of reachable clients *)

Record wf_requests (c : client) : Prop := {
  wf_pending : ∀ k id, pending c !! k = Some id → k = pretty id ∧ (id < nextId c)%Z;
  wf_request_calls : ∀ id, request_calls id (calls c) ≠ [] → (id < nextId c)%Z
}.

Record wf_registry (c : client) : Prop := {
  wf_turns : ∀ k t, turns c !! k = Some t →
    turnId t = k ∧ k ≠ "" ∧ promise t < nextTurn c ∧
    turn_calls (promise t) (calls c) = [] ∧
    match timeout t with
    | Some h => h = promise t
    | None => timers c !! promise t = None
    end;
  wf_unique : ∀ k k' t t',
    turns c !! k = Some t → turns c !! k' = Some t' → promise t = promise t' → k = k';
  wf_timers : ∀ h k ms, timers c !! h = Some (k, ms) →
    h < nextTurn c ∧ turn_calls h (calls c) = [] ∧
    ∀ k' t, turns c !! k' = Some t → promise t = h → k' = k;
  wf_turn_calls : ∀ p, turn_calls p (calls c) ≠ [] → p < nextTurn c
}.

Definition wf (c : client) : Prop := wf_requests c ∧ wf_registry c.

(** ** Statements about classification *)

Inductive class : Type := IsResponse | IsRequest | IsNotification.

Definition holds (message : json) (k : class) : bool :=
  match match k with
        | IsResponse => isRpcResponse message
        | IsRequest => isRpcRequest message
        | IsNotification => isRpcNotification message
        end with
  | Ret true => true
  | _ => false
  end.

(** The classes whose predicate returns [true] on the message. *)
Definition classes (message : json) : list class :=
  List.filter (holds message) [IsResponse; IsRequest; IsNotification].

(** ** Statements about inbound lines *)

(** The decoded line is a notification [method]. *)
Definition notifies (method : string) (message : json) : Prop :=
  isRpcNotification message = Ret true ∧
  get "method" (Some message) = Some (JStr method).

(** The line is [item/agentMessage/delta] for turn [k] and item [i], with
    the string delta [d]. *)
Definition is_delta (k i d : string) (message : json) : Prop :=
  notifies "item/agentMessage/delta" message ∧
  let params := get "params" (Some message) in
  get "turnId" params = Some (JStr k) ∧
  get "itemId" params = Some (JStr i) ∧
  get "delta" params = Some (JStr d).

(** The event is the arrival of [turn/completed] for turn [k]. *)
Definition completes (k : string) (e : event) : bool :=
  match e with
  | Line m =>
      holds m IsNotification && is_str "turn/completed" (get "method" (Some m)) &&
      is_str k (get "id" (get "turn" (get "params" (Some m))))
  | _ => false
  end.

(** The event is timer [t] firing. *)
Definition fires (t : nat) (e : event) : bool :=
  match e with
  | Timer t' => bool_decide (t' = t)
  | _ => false
  end.

(** The event is the arrival of a Response whose id, normalized, is the key
    of request [id]. *)
Definition answers (id : Z) (e : event) : bool :=
  match e with
  | Line m => holds m IsResponse && is_str (pretty id) (normalizeId (get "id" (Some m)))
  | _ => false
  end.

(** The notification names turn [k], in the place where its method looks
    for the turn id. *)
Definition names_turn (k : string) (method : string) (params : jsval) : Prop :=
  (method = "turn/completed" ∧ get "id" (get "turn" params) = Some (JStr k)) ∨
  (method ≠ "turn/completed" ∧ get "turnId" params = Some (JStr k)).

(** The arrival, in order, of the typed Responses [rs]. *)
Definition response_lines (rs : list (JsonRpcId * jsval * option RpcError)) : list event :=
  (λ r, Line (encode (Response r.1.1 r.1.2 r.2))) <$> rs.

(** The event is a [runTurn] call resuming with a response that names turn
    [k]: the one event that puts a tracker for [k] in the registry. *)
Definition starts (k : string) (e : event) : bool :=
  match e with
  | ResumeTurn _ response => is_str k (get "id" (get "turn" response))
  | _ => false
  end.

(** ** Sample values *)

Definition sample_opts : CodexAppServerOptions :=
  {| command := "codex"; args := ["app-server"]; cwd := None; autoApprove := false |}.

Definition sample_params : Params.t :=
  {| Params.threadId := "t1"; Params.text := "hi"; Params.model := None;
     Params.effort := None; Params.summary := None; Params.approvalPolicy := None;
     Params.timeoutMs := Some 50%Z |}.

(** The decoded notification [method] with parameters [params]. *)
Definition notification (method : string) (params : list (string * json)) : json :=
  encode (Notification method (Some (JObj params))).

(** A client whose child runs and which tracks turn "u1", with a timeout of
    50 ms: the history is the spawn, the handshake, the [turn/start] request,
    its response and the resumption of [runTurn]. *)
Definition sample_history : list event :=
  [Spawn true;
   SendRequest "initialize"
     (Some (JObj [("client_info", JObj [("name", JStr "clawd"); ("title", JStr "clawdex");
                                        ("version", JStr "0.1.0")]);
                  ("capabilities", JObj [("experimental_api", JBool true)])]));
   Line (encode (Response (IdNum 1) (Some (JObj [("userAgent", JStr "codex")])) None));
   SendNotification "initialized" None;
   RunTurn sample_params;
   Line (encode (Response (IdNum 2) (Some (JObj [("turn", JObj [("id", JStr "u1")])])) None));
   ResumeTurn sample_params (Some (JObj [("turn", JObj [("id", JStr "u1")])]))].

Definition sample_client : client :=
  default (new_client sample_opts) (run sample_history (new_client sample_opts)).

Definition sample_tracker : TurnTracker :=
  {| threadId := "t1"; turnId := "u1"; lastAgentText := ""; lastNonEmptyText := "";
     itemTexts := ∅; promise := 0; timeout := Some 0 |}.

(** The same client after a first delta "par" for item "i1" of turn "u1". *)
Definition sample_delta : json :=
  notification "item/agentMessage/delta"
    [("turnId", JStr "u1"); ("itemId", JStr "i1"); ("delta", JStr "par")].

Definition sample_client_partial : client :=
  default sample_client (run [Line sample_delta] sample_client).

Definition sample_tracker_partial : TurnTracker :=
  {| threadId := "t1"; turnId := "u1"; lastAgentText := "par"; lastNonEmptyText := "par";
     itemTexts := {["i1" := "par"]}; promise := 0; timeout := Some 0 |}.

(** ** Further methods and statements *)

(** [hasPendingTurns]: [this.turns.size > 0]. *)
Definition hasPendingTurns (c : client) : bool :=
  bool_decide (0 < size (turns c)).

(** The event is a [runTurn] call resuming. *)
Definition is_resume (e : event) : bool :=
  match e with
  | ResumeTurn _ _ => true
  | _ => false
  end.

(** The calls made so far on a turn promise are all calls of [resolve]. *)
Definition only_fulfilled (l : list (settlement CodexTurnResult)) : Prop :=
  Forall (λ s, ∃ r, s = Fulfilled r) l.

(** [sample_params] without timeout. *)
Definition sample_params_untimed : Params.t :=
  {| Params.threadId := "t1"; Params.text := "hi"; Params.model := None;
     Params.effort := None; Params.summary := None; Params.approvalPolicy := None;
     Params.timeoutMs := None |}.

(** The decoded line is a notification that names turn [k]. *)
Definition notifies_turn (k : string) (message : json) : Prop :=
  ∃ method, notifies method message ∧ names_turn k method (get "params" (Some message)).

(** A decoded value on which [in] throws: not an object and not an array. *)
Definition primitive (v : json) : bool :=
  match v with
  | JObj _ | JArr _ => false
  | _ => true
  end.

(** The listener of the reader's [line] event.  [JSON_parse] is what
    [JSON.parse] makes of a line, [None] where it throws; the exception is
    caught, one of [handleMessage] is not. *)
Definition onLine (JSON_parse : string → option json) (line : string) : M unit := λ c,
  if decide (trim line = "") then (Ret tt, c)
  else
    match JSON_parse line with
    | None => (Ret tt, c)
    | Some parsed => handleMessage parsed c
    end.

Module ThreadParams.
Record t : Type := {
  model : option string;
  modelProvider : option string;
  cwd : option string;
  approvalPolicy : option string;
  sandbox : option string;
  config : jsval;
  baseInstructions : option string;
  developerInstructions : option string;
  personality : jsval
}.
End ThreadParams.

(** [x ?? null] for a value. *)
Definition val_or_null (x : jsval) : json := nullish_or x JNull.

(** [threadStart], from the call of [sendRequest] on: the request... *)
Definition threadStart_request (params : ThreadParams.t) (c : client) : Z * client :=
  sendRequest "thread/start"
    (Some (JObj
       [("model", from_option JStr JNull (ThreadParams.model params));
        ("modelProvider", from_option JStr JNull (ThreadParams.modelProvider params));
        ("cwd", from_option JStr JNull (ThreadParams.cwd params));
        ("approvalPolicy", from_option JStr JNull (ThreadParams.approvalPolicy params));
        ("sandbox", from_option JStr JNull (ThreadParams.sandbox params));
        ("config", val_or_null (ThreadParams.config params));
        ("baseInstructions", from_option JStr JNull (ThreadParams.baseInstructions params));
        ("developerInstructions",
         from_option JStr JNull (ThreadParams.developerInstructions params));
        ("personality", val_or_null (ThreadParams.personality params));
        ("ephemeral", JNull);
        ("experimentalRawEvents", JBool false)])) c.

(** ... and what it does once the request's promise is fulfilled with
    [res]: it throws, or returns [{ threadId }]; the outcome is that
    [threadId]. *)
Definition threadStart_resume (res : jsval) : outcome jsval :=
  let threadId := get "id" (get "thread" res) in
  if negb (truthy threadId)
  then Exn (Error "codex app-server thread/start missing thread id")
  else Ret threadId.

Definition threadResume_request (threadId : string) (params : ThreadParams.t) (c : client)
  : Z * client :=
  sendRequest "thread/resume"
    (Some (JObj
       [("threadId", JStr threadId);
        ("history", JNull);
        ("path", JNull);
        ("model", from_option JStr JNull (ThreadParams.model params));
        ("modelProvider", from_option JStr JNull (ThreadParams.modelProvider params));
        ("cwd", from_option JStr JNull (ThreadParams.cwd params));
        ("approvalPolicy", from_option JStr JNull (ThreadParams.approvalPolicy params));
        ("sandbox", from_option JStr JNull (ThreadParams.sandbox params));
        ("config", val_or_null (ThreadParams.config params));
        ("baseInstructions", from_option JStr JNull (ThreadParams.baseInstructions params));
        ("developerInstructions",
         from_option JStr JNull (ThreadParams.developerInstructions params));
        ("personality", val_or_null (ThreadParams.personality params))])) c.

Definition threadResume_resume (res : jsval) : outcome jsval :=
  let threadId := get "id" (get "thread" res) in
  if negb (truthy threadId)
  then Exn (Error "codex app-server thread/resume missing thread id")
  else Ret threadId.

(** What a caller that awaits the promise of request [id] sees of it, through
    [resume], the rest of the caller: nothing while the promise is pending,
    the rejection when it was rejected. *)
Definition awaited {A} (id : Z) (resume : jsval → outcome A) (c : client)
  : option (outcome A) :=
  match request_promise id c with
  | None => None
  | Some (Rejected e) => Some (Exn e)
  | Some (Fulfilled res) => Some (resume res)
  end.

(** A [JSON.parse] for the samples: it knows three lines. *)
Definition sample_parse (line : string) : option json :=
  if decide (line = "5") then Some (JNum 5)
  else if decide (line = "[]") then Some (JArr [])
  else if decide (line = "{}") then Some (JObj [])
  else None.

Definition sample_thread_params : ThreadParams.t :=
  {| ThreadParams.model := None; ThreadParams.modelProvider := None;
     ThreadParams.cwd := Some "/work"; ThreadParams.approvalPolicy := Some "on-request";
     ThreadParams.sandbox := Some "workspace-write"; ThreadParams.config := None;
     ThreadParams.baseInstructions := None; ThreadParams.developerInstructions := None;
     ThreadParams.personality := Some JNull |}.

(** ** The process supervisor: [start], [startInternal], [stop]

    The client object has three more fields, [started], [startPromise] and
    [reader]; a [supervisor] is the client with them.  A call of
    [startInternal] is an [async] function: it runs up to its first [await],
    and goes on when the awaited promise is settled.  [suspended] holds the
    calls that wait at an [await], [startResults] the promises of the calls
    that have ended.  What is done to the operating-system process ([spawn],
    [kill], the grace period of [stop]) is outside the embedding; of [spawn]
    only the streams of the child it returns are used. *)

Record spawned : Type := {
  has_stdout : bool;
  has_stdin : bool
}.

(** Where a call of [startInternal] waits: for the promise of its
    [initialize] request, or for that of [sendNotification]. *)
Inductive start_stage : Type :=
| AwaitInitialize (id : Z)
| AwaitInitialized.

Record supervisor : Type := {
  core : client;
  started : bool;
  startPromise : option nat;
  reader : bool;
  suspended : gmap nat start_stage;
  startResults : gmap nat (settlement unit);
  nextStart : nat
}.

Definition new_supervisor (o : CodexAppServerOptions) : supervisor :=
  {| core := new_client o; started := false; startPromise := None; reader := false;
     suspended := ∅; startResults := ∅; nextStart := 0 |}.

Definition set_core (x : client) (s : supervisor) : supervisor :=
  {| core := x; started := started s; startPromise := startPromise s; reader := reader s;
     suspended := suspended s; startResults := startResults s; nextStart := nextStart s |}.

(** The promise of the call [p] of [startInternal] is settled; the call is
    over. *)
Definition end_start (p : nat) (r : settlement unit) (s : supervisor) : supervisor :=
  {| core := core s; started := started s; startPromise := startPromise s;
     reader := reader s; suspended := delete p (suspended s);
     startResults := <[p := r]> (startResults s); nextStart := nextStart s |}.

Definition initialize_params : json :=
  JObj [("client_info", JObj [("name", JStr "clawd"); ("title", JStr "clawdex");
                              ("version", JStr "0.1.0")]);
        ("capabilities", JObj [("experimental_api", JBool true)])].

(** [startInternal] up to its first [await], as call [p]; [sp] is the child
    that [spawn] returns. *)
Definition startInternal (sp : spawned) (p : nat) (s : supervisor) : supervisor :=
  let c1 := set_child (Some {| stdin := if has_stdin sp then Some [] else None |}) (core s) in
  if negb (has_stdout sp) then
    end_start p (Rejected (Error "codex app-server stdout unavailable")) (set_core c1 s)
  else
    let '(id, c2) := sendRequest "initialize" (Some initialize_params) c1 in
    {| core := c2; started := started s; startPromise := startPromise s; reader := true;
       suspended := <[p := AwaitInitialize id]> (suspended s);
       startResults := startResults s; nextStart := nextStart s |}.

(** What [start] returns: a promise already resolved, or one that follows the
    promise of a call of [startInternal]. *)
Inductive start_result : Type :=
| AlreadyStarted
| Awaits (p : nat).

Definition set_startPromise (x : option nat) (s : supervisor) : supervisor :=
  {| core := core s; started := started s; startPromise := x; reader := reader s;
     suspended := suspended s; startResults := startResults s; nextStart := nextStart s |}.

(** [start]: [this.startPromise = this.startInternal()] runs [startInternal]
    up to its first [await] and then keeps its promise. *)
Definition start (sp : spawned) (s : supervisor) : start_result * supervisor :=
  if started s then (AlreadyStarted, s)
  else
    match startPromise s with
    | Some p => (Awaits p, s)
    | None =>
        let p := nextStart s in
        (Awaits p,
         set_startPromise (Some p)
           (startInternal sp p
              {| core := core s; started := started s; startPromise := startPromise s;
                 reader := reader s; suspended := suspended s;
                 startResults := startResults s; nextStart := S p |}))
    end.

(** The call [p] of [startInternal] goes on, if the promise it waits for is
    settled. *)
Definition resumeStart (p : nat) (s : supervisor) : supervisor :=
  match suspended s !! p with
  | Some (AwaitInitialize id) =>
      match request_promise id (core s) with
      | None => s
      | Some (Rejected e) => end_start p (Rejected e) s
      | Some (Fulfilled initialize) =>
          if negb (truthy initialize) then
            end_start p (Rejected (Error "codex app-server initialize failed")) s
          else
            match sendNotification "initialized" None (core s) with
            | (Exn e, _) => end_start p (Rejected e) s
            | (_, c') =>
                {| core := c'; started := started s; startPromise := startPromise s;
                   reader := reader s;
                   suspended := <[p := AwaitInitialized]> (suspended s);
                   startResults := startResults s; nextStart := nextStart s |}
            end
      end
  | Some AwaitInitialized =>
      end_start p (Fulfilled tt)
        {| core := core s; started := true; startPromise := startPromise s;
           reader := reader s; suspended := suspended s;
           startResults := startResults s; nextStart := nextStart s |}
  | None => s
  end.

(** [stop], as far as the client object goes. *)
Definition stop (s : supervisor) : supervisor :=
  {| core := set_child None (core s); started := false; startPromise := None;
     reader := false; suspended := suspended s; startResults := startResults s;
     nextStart := nextStart s |}.

(** What can happen to the whole client: [start] or [stop] is called, a call
    of [startInternal] goes on, or one of the events of the session core
    occurs; the child changes through [start] and [stop] only. *)
Inductive sup_event : Type :=
| CallStart (sp : spawned)
| ResumeStart (p : nat)
| CallStop
| Inner (e : event).

Definition sup_step (e : sup_event) (s : supervisor) : option supervisor :=
  match e with
  | CallStart sp => Some (start sp s).2
  | ResumeStart p => Some (resumeStart p s)
  | CallStop => Some (stop s)
  | Inner (Spawn _) | Inner Stop => None
  | Inner e => (λ c, set_core c s) <$> step e (core s)
  end.

Fixpoint sup_run (es : list sup_event) (s : supervisor) : option supervisor :=
  match es with
  | [] => Some s
  | e :: es' =>
      match sup_step e s with
      | Some s' => sup_run es' s'
      | None => None
      end
  end.

Definition sup_reachable (s : supervisor) : Prop :=
  ∃ o es, sup_run es (new_supervisor o) = Some s.

Definition is_stop (e : sup_event) : bool :=
  match e with
  | CallStop => true
  | _ => false
  end.

(** The child that [spawn] returns when all goes well. *)
Definition good_child : spawned := {| has_stdout := true; has_stdin := true |}.

(** ** The callers: runtime.ts and heartbeat.ts *)

(** The arguments [createClawdRuntime] gives the client; [raw] is
    [config.codex?.args]. *)
Definition codexArgs (raw : option (list string)) : list string :=
  let codexArgsRaw := default [] raw in
  let hasAppServer := existsb (λ arg, String.eqb arg "app-server") codexArgsRaw in
  if hasAppServer then codexArgsRaw else codexArgsRaw ++ ["app-server"].

Module Heartbeat.

(** A character class [[lo-hi]] of a regular expression. *)
Definition between (lo hi a : ascii) : bool :=
  ((N_of_ascii lo <=? N_of_ascii a) && (N_of_ascii a <=? N_of_ascii hi))%N.

(** [ACTIVE_HOURS_PATTERN.test]: [/^([01]\d|2[0-3]|24):([0-5]\d)$/]. *)
Definition ACTIVE_HOURS_PATTERN (raw : string) : bool :=
  match raw with
  | String h1 (String h2 (String c (String m1 (String m2 EmptyString)))) =>
      ((between "0" "1" h1 && between "0" "9" h2)
       || (Ascii.eqb h1 "2" && between "0" "3" h2)
       || (Ascii.eqb h1 "2" && Ascii.eqb h2 "4"))
      && Ascii.eqb c ":"
      && (between "0" "5" m1 && between "0" "9" m2)
  | _ => false
  end.

(** [s.split(sep)] for a separator of one character. *)
Fixpoint split (sep : ascii) (s : string) : list string :=
  match s with
  | EmptyString => [EmptyString]
  | String a s' =>
      if Ascii.eqb a sep then EmptyString :: split sep s'
      else match split sep s' with
           | h :: t => String a h :: t
           | [] => [String a EmptyString]
           end
  end.

Fixpoint digits (acc : Z) (s : string) : option Z :=
  match s with
  | EmptyString => Some acc
  | String a s' =>
      if between "0" "9" a then digits (10 * acc + (Z.of_N (N_of_ascii a) - 48)) s'
      else None
  end.

(** [Number] of a string, for strings of decimal digits; [None] is [NaN],
    which is also what the model gives the strings that are not of this
    kind: [parseTimeMinutes] calls [Number] after the pattern matched, on
    two digits. *)
Definition Number (s : option string) : option Z :=
  match s with
  | Some s => digits 0 s
  | None => None
  end.

Definition parseTimeMinutes (raw : option string) (allow24 : bool) : option Z :=
  match raw with
  | None => None
  | Some raw =>
      if String.eqb raw "" || negb (ACTIVE_HOURS_PATTERN raw) then None
      else
        let parts := split ":" raw in
        match Number (parts !! 0%nat), Number (parts !! 1%nat) with
        | Some hour, Some minute =>
            if (hour =? 24)%Z then
              if negb allow24 || negb (minute =? 0)%Z then None else Some (24 * 60)%Z
            else Some (hour * 60 + minute)%Z
        | _, _ => None
        end
  end.


Section Zone.

(** The two functions that ask [Intl] are left open. *)
Variable resolveActiveHoursTimezone : option string → string.
Variable resolveMinutesInZone : Z → string → option Z.


End Zone.

End Heartbeat.

(** ** Further statements and samples for requests *)

(** The event is the arrival of a Response that echoes request [id]: an
    object with a [result] or an [error] member whose [id] member is the
    number [id] or the decimal string of [id]. *)
Definition echoes (id : Z) (e : event) : bool :=
  match e with
  | Line (JObj fs) =>
      (bool_decide (is_Some (field "result" fs)) || bool_decide (is_Some (field "error" fs)))
      && match field "id" fs with
         | Some (JNum n) => bool_decide (n = id)
         | Some (JStr s) => bool_decide (s = pretty id)
         | _ => false
         end
  | _ => false
  end.

(** The sample client after [stop]: it was started, tracks turn "u1", and
    has no child any more. *)
Definition stopped_client : client :=
  default (new_client sample_opts) (run (sample_history ++ [Stop]) (new_client sample_opts)).

(** A call of [threadStart] that passed [await this.start()] before [stop]
    was called and goes on after it: its request is sent by the stopped
    client. *)
Definition unwritten_request : client :=
  (threadStart_request sample_thread_params stopped_client).2.

(** The Response a child would give to a [thread/start] with request id 3. *)
Definition late_response : json :=
  encode (Response (IdNum 3) (Some (JObj [("thread", JObj [("id", JStr "th1")])])) None).

(** The sample client after the timer of turn "u1" has fired and the
    [turn/completed] of that turn has arrived all the same. *)
Definition sample_client_timed_out : client :=
  default sample_client
    (run [Timer 0;
          Line (notification "turn/completed"
                  [("turn", JObj [("id", JStr "u1"); ("status", JStr "completed")])])]
       sample_client).

(** * Properties *)

(** ** Classification *)

Lemma classes_object fs :
  classes (JObj fs) =
    if bool_decide (is_Some (field "id" fs)) then
      if bool_decide (is_Some (field "result" fs)) || bool_decide (is_Some (field "error" fs))
      then [IsResponse]
      else if bool_decide (is_Some (field "method" fs)) then [IsRequest] else []
    else if bool_decide (is_Some (field "method" fs)) then [IsNotification] else [].
Proof.
  unfold classes, holds, isRpcResponse, isRpcRequest, isRpcNotification, js_in.
  destruct (bool_decide (is_Some (field "id" fs))),
    (bool_decide (is_Some (field "result" fs))),
    (bool_decide (is_Some (field "error" fs))),
    (bool_decide (is_Some (field "method" fs))); reflexivity.
Qed.

Lemma classic_object (m : json) : (∃ fs, m = JObj fs) ∨ (∀ fs, m ≠ JObj fs).
Proof. destruct m; eauto. Qed.

Lemma classes_not_object (m : json) :
  (∀ fs, m ≠ JObj fs) → classes m = [].
Proof.
  intros H. destruct m; try reflexivity. by destruct (H fields).
Qed.

(** C9. On every decoded message at most one of the three predicates
    [isRpcResponse], [isRpcRequest], [isRpcNotification] returns true; on the
    decoded form of every valid message (a Request, a Notification, or a
    Response carrying a result or an error) exactly one does, the one of its
    variant. *)
Theorem classification_exclusive :
  (∀ message : json, length (classes message) ≤ 1) ∧
  (∀ m : JsonRpcMessage, valid_message m = true →
     classes (encode m) =
       [match m with
        | Request _ _ _ => IsRequest
        | Notification _ _ => IsNotification
        | Response _ _ _ => IsResponse
        end]).
Proof.
  split.
  - intros m. destruct (classic_object m) as [[fs ->]|H].
    + rewrite classes_object. repeat case_match; simpl; lia.
    + rewrite classes_not_object by done. simpl; lia.
  - intros [id method [p|]|method [p|]|id [r|] [e|]] Hv; try reflexivity.
    discriminate Hv.
Qed.

Lemma classification_exclusive_witness :
  valid_message (Response (IdNum 1) (Some JNull) None) = true ∧
  classes (encode (Response (IdNum 1) (Some JNull) None)) = [IsResponse].
Proof.
  split; [reflexivity|].
  exact (proj2 classification_exclusive (Response (IdNum 1) (Some JNull) None) eq_refl).
Defined.

(** ** The invariant holds of every reachable client *)

Lemma request_calls_app id l l' :
  request_calls id (l ++ l') = request_calls id l ++ request_calls id l'.
Proof. apply omap_app. Qed.

Lemma turn_calls_app p l l' :
  turn_calls p (l ++ l') = turn_calls p l ++ turn_calls p l'.
Proof. apply omap_app. Qed.

Lemma turn_calls_request p l id s :
  turn_calls p (l ++ [RequestCall id s]) = turn_calls p l.
Proof. rewrite turn_calls_app. simpl. apply app_nil_r. Qed.

Lemma request_calls_turn id l p s :
  request_calls id (l ++ [TurnCall p s]) = request_calls id l.
Proof. rewrite request_calls_app. simpl. apply app_nil_r. Qed.

Lemma request_calls_other id l id' s :
  id' ≠ id → request_calls id (l ++ [RequestCall id' s]) = request_calls id l.
Proof.
  intros H. rewrite request_calls_app. simpl.
  destruct (decide (id' = id)); [done|]. apply app_nil_r.
Qed.

Lemma request_calls_same id l s :
  request_calls id (l ++ [RequestCall id s]) = request_calls id l ++ [s].
Proof.
  rewrite request_calls_app. simpl. destruct (decide (id = id)); done.
Qed.

Lemma turn_calls_other p l p' s :
  p' ≠ p → turn_calls p (l ++ [TurnCall p' s]) = turn_calls p l.
Proof.
  intros H. rewrite turn_calls_app. simpl.
  destruct (decide (p' = p)); [done|]. apply app_nil_r.
Qed.

Lemma turn_calls_same p l s :
  turn_calls p (l ++ [TurnCall p s]) = turn_calls p l ++ [s].
Proof.
  rewrite turn_calls_app. simpl. destruct (decide (p = p)); done.
Qed.

Lemma wf_requests_frame c c' :
  nextId c' = nextId c → pending c' = pending c →
  (∀ id, request_calls id (calls c') = request_calls id (calls c)) →
  wf_requests c → wf_requests c'.
Proof.
  intros Hn Hp Hc [H1 H2]. split.
  - intros k id. rewrite Hp, Hn. apply H1.
  - intros id. rewrite Hc, Hn. apply H2.
Qed.

Lemma wf_registry_frame c c' :
  turns c' = turns c → timers c' = timers c → nextTurn c' = nextTurn c →
  (∀ p, turn_calls p (calls c') = turn_calls p (calls c)) →
  wf_registry c → wf_registry c'.
Proof.
  intros Ht Hm Hn Hc [H1 H2 H3 H4]. split.
  - intros k t. rewrite Ht, Hm, Hn, Hc. apply H1.
  - rewrite Ht. apply H2.
  - intros h k ms. rewrite Ht, Hm, Hn, Hc. apply H3.
  - intros p. rewrite Hc, Hn. apply H4.
Qed.

Lemma wf_new o : wf (new_client o).
Proof.
  split; split; simpl; intros; try done.
Qed.

Lemma wf_set_child x c : wf c → wf (set_child x c).
Proof.
  intros [H1 H2]. split.
  - by eapply wf_requests_frame; [..|exact H1].
  - by eapply wf_registry_frame; [..|exact H2].
Qed.

Lemma writeMessage_child message c :
  ∃ x, (writeMessage message c).2 = set_child x c.
Proof.
  unfold writeMessage. destruct (child c) as [[[lines|]]|] eqn:E; simpl; eauto;
    exists (child c); destruct c; simpl in *; by subst.
Qed.

Lemma sendNotification_child method params c :
  ∃ x, (sendNotification method params c).2 = set_child x c.
Proof. apply writeMessage_child. Qed.

Lemma wf_writeMessage message c : wf c → wf (writeMessage message c).2.
Proof.
  intros H. destruct (writeMessage_child message c) as [x ->]. by apply wf_set_child.
Qed.

Lemma wf_requests_issue c id :
  wf_requests c → id = nextId c →
  wf_requests (set_pending (<[pretty id := id]> (pending c)) (set_nextId (id + 1) c)).
Proof.
  intros [H1 H2] ->. split; simpl.
  - intros k id. rewrite lookup_insert. case_decide as E.
    + intros [= <-]. split; [done|lia].
    + intros [-> ?]%H1. split; [done|lia].
  - intros id Hid. apply H2 in Hid. lia.
Qed.

Lemma wf_requests_settle c id s :
  wf_requests c → (id < nextId c)%Z → wf_requests (settle (RequestCall id s) c).
Proof.
  intros [H1 H2] Hid. split; simpl; [done|].
  intros id'. destruct (decide (id = id')) as [<-|Hne]; [done|].
  rewrite request_calls_other by done. apply H2.
Qed.

Lemma wf_sendRequest method params c : wf c → wf (sendRequest method params c).2.
Proof.
  intros [H1 H2]. unfold sendRequest.
  set (c2 := set_pending _ _).
  assert (wf c2) as Hc2.
  { split; [exact (wf_requests_issue c _ H1 eq_refl)|].
    by eapply wf_registry_frame; [..|exact H2]. }
  set (payload := JObj _).
  pose proof (wf_writeMessage payload c2 Hc2) as Hw.
  destruct (writeMessage_child payload c2) as [x Hx].
  destruct (writeMessage payload c2) as [[[]|e|] c3]; simpl in *; try done.
  destruct Hw as [Hw1 Hw2]. split.
  - apply wf_requests_settle; [done|]. rewrite Hx. simpl. lia.
  - eapply wf_registry_frame; [..|exact Hw2]; try done.
    intros p. simpl. apply turn_calls_request.
Qed.

Lemma wf_handleServerRequest request c : wf c → wf (handleServerRequest request c).2.
Proof.
  intros H. unfold handleServerRequest, sendResponse, sendError.
  repeat case_match; simpl; try done; by apply wf_writeMessage.
Qed.

Lemma map_get_Some {V} (key : jsval) (m : gmap string V) k v :
  map_get key m = Some (k, v) ↔ key = Some (JStr k) ∧ m !! k = Some v.
Proof.
  unfold map_get. split.
  - destruct key as [[]|]; try done.
    destruct (m !! s) eqn:E; simpl; [|done]. intros [= <- <-]. done.
  - intros [-> ->]. done.
Qed.

Lemma map_get_str {V} (k : string) (m : gmap string V) :
  map_get (Some (JStr k)) m = pair k <$> m !! k.
Proof. reflexivity. Qed.

Lemma turn_calls_fresh c p :
  wf_registry c → nextTurn c ≤ p → turn_calls p (calls c) = [].
Proof.
  intros H Hp. destruct (turn_calls p (calls c)) eqn:E; [done|].
  assert (p < nextTurn c); [|lia]. apply (wf_turn_calls _ H). by rewrite E.
Qed.

Lemma request_calls_fresh c id :
  wf_requests c → (nextId c ≤ id)%Z → request_calls id (calls c) = [].
Proof.
  intros H Hp. destruct (request_calls id (calls c)) eqn:E; [done|].
  assert (id < nextId c)%Z; [|lia]. apply (wf_request_calls _ H). by rewrite E.
Qed.

Lemma timers_fresh c p :
  wf_registry c → nextTurn c ≤ p → timers c !! p = None.
Proof.
  intros H Hp. destruct (timers c !! p) as [[k ms]|] eqn:E; [|done].
  apply (wf_timers _ H) in E as [? _]. lia.
Qed.

Lemma wf_registry_text c key tracker text items :
  wf_registry c → turns c !! key = Some tracker →
  wf_registry (set_turns (<[key := with_text text items tracker]> (turns c)) c).
Proof.
  intros [H1 H2 H3 H4] Hk.
  assert (∀ k t, <[key := with_text text items tracker]> (turns c) !! k = Some t →
                 ∃ t0, turns c !! k = Some t0 ∧ promise t = promise t0 ∧
                       turnId t = turnId t0 ∧ timeout t = timeout t0) as Hl.
  { intros k t. rewrite lookup_insert. case_decide as E.
    - subst k. intros [= <-]. by exists tracker.
    - intros ?. by exists t. }
  split; simpl.
  - intros k t (t0 & Ht0 & -> & -> & ->)%Hl. by apply H1.
  - intros k k' t t' (t0 & Ht0 & -> & _)%Hl (t0' & Ht0' & -> & _)%Hl. by eapply H2.
  - intros h k ms Hh. destruct (H3 h k ms Hh) as (? & ? & Hu). split_and!; [done..|].
    intros k' t (t0 & Ht0 & -> & _)%Hl. by apply Hu.
  - done.
Qed.

Lemma wf_registry_complete c key tracker s :
  wf_registry c → turns c !! key = Some tracker →
  wf_registry
    (settle (TurnCall (promise tracker) s)
       (match timeout tracker with
        | Some t => clearTimeout t (set_turns (delete key (turns c)) c)
        | None => set_turns (delete key (turns c)) c
        end)).
Proof.
  intros [H1 H2 H3 H4] Hk.
  destruct (H1 key tracker Hk) as (Hid & Hne & Hlt & Hcalls & Hto).
  set (c' := match timeout tracker with Some _ => _ | None => _ end).
  assert (turns c' = delete key (turns c)) as Ht by (subst c'; by destruct (timeout tracker)).
  assert (nextTurn c' = nextTurn c) as Hn by (subst c'; by destruct (timeout tracker)).
  assert (calls c' = calls c) as Hc by (subst c'; by destruct (timeout tracker)).
  assert (∀ h x, timers c' !! h = Some x → timers c !! h = Some x ∧ h ≠ promise tracker) as Hm.
  { subst c'. destruct (timeout tracker) as [t|]; simpl.
    - subst t. intros h x. rewrite lookup_delete. case_decide; [done|]. by intros.
    - intros h x Hh. split; [done|]. intros ->. congruence. }
  assert (∀ h, timers c !! h = None → timers c' !! h = None) as Hm'.
  { intros h Hh. destruct (timers c' !! h) eqn:E; [|done]. apply Hm in E as [E _]. congruence. }
  split; simpl; rewrite ?Ht, ?Hn, ?Hc.
  - intros k t [Hkk Hkt]%lookup_delete_Some.
    destruct (H1 k t Hkt) as (? & ? & ? & ? & Hto').
    split_and!; [done..| |].
    + rewrite turn_calls_other; [done|]. intros E. by apply Hkk, (H2 key k tracker t).
    + destruct (timeout t); [done|]. by apply Hm'.
  - intros k k' t t' [_ ?]%lookup_delete_Some [_ ?]%lookup_delete_Some. by eapply H2.
  - intros h k ms [Hh Hhp]%Hm. destruct (H3 h k ms Hh) as (? & ? & Hu).
    split_and!; [done| |].
    + by rewrite turn_calls_other.
    + intros k' t [_ ?]%lookup_delete_Some. by apply Hu.
  - intros p. destruct (decide (promise tracker = p)) as [<-|Hp]; [done|].
    rewrite turn_calls_other by done. apply H4.
Qed.

Lemma wf_fireTimer t c : wf c → wf (fireTimer t c).
Proof.
  intros [Hr [H1 H2 H3 H4]]. unfold fireTimer.
  destruct (timers c !! t) as [[k ms]|] eqn:E; [|by split].
  destruct (H3 t k ms E) as (Hlt & Hcalls & Hu).
  split.
  - eapply wf_requests_frame; [..|exact Hr]; try done.
    intros id. simpl. apply request_calls_turn.
  - split; simpl.
    + intros k' tr [Hkk Hkt]%lookup_delete_Some.
      destruct (H1 k' tr Hkt) as (? & ? & ? & ? & Hto).
      assert (promise tr ≠ t) as Hp by (intros Hp; by apply Hkk; symmetry; eapply Hu).
      split_and!; [done..| |].
      * by rewrite turn_calls_other.
      * destruct (timeout tr); [done|]. rewrite lookup_delete_ne; done.
    + intros k1 k2 t1 t2 [_ ?]%lookup_delete_Some [_ ?]%lookup_delete_Some. by eapply H2.
    + intros h k' ms' [Hh Hhp]%lookup_delete_Some.
      destruct (H3 h k' ms' Hhp) as (? & ? & Hu'). split_and!; [done| |].
      * by rewrite turn_calls_other.
      * intros k2 tr [_ ?]%lookup_delete_Some. by apply Hu'.
    + intros p. destruct (decide (t = p)) as [<-|Hp]; [done|].
      rewrite turn_calls_other by done. apply H4.
Qed.

Lemma wf_trackTurn thread k timeoutMs c :
  k ≠ "" → wf c → wf (trackTurn thread k timeoutMs c).2.
Proof.
  intros Hk [Hr Hg]. pose proof Hg as [H1 H2 H3 H4].
  unfold trackTurn. set (p := nextTurn c).
  set (armed := match timeoutMs with Some _ => _ | None => false end).
  set (tracker := Build_TurnTracker _ _ _ _ _ _ _).
  set (c2 := if armed then _ else _).
  assert (turns c2 = turns c) as Ht by (subst c2; by destruct armed).
  assert (nextTurn c2 = S p) as Hn by (subst c2; by destruct armed).
  assert (calls c2 = calls c) as Hc by (subst c2; by destruct armed).
  assert (∀ h, h ≠ p → timers c2 !! h = timers c !! h) as Hm.
  { subst c2. destruct armed; simpl; [|done]. intros h Hh. by rewrite lookup_insert_ne. }
  assert (timers c2 !! p = if armed then Some (k, default 0%Z timeoutMs) else None) as Hmp.
  { subst c2. destruct armed; simpl; [by rewrite lookup_insert_eq|].
    by apply timers_fresh. }
  assert (turn_calls p (calls c) = []) as Hfresh by by apply turn_calls_fresh.
  assert (∀ k' t, <[k := tracker]> (turns c) !! k' = Some t →
            (k' = k ∧ t = tracker) ∨ (turns c !! k' = Some t ∧ promise t < p)) as Hl.
  { intros k' t. rewrite lookup_insert. case_decide as E.
    - intros [= <-]. by left.
    - intros Ht'. right. split; [done|]. by destruct (H1 k' t Ht') as (? & ? & ? & _). }
  split; simpl.
  - eapply wf_requests_frame; [..|exact Hr]; subst c2; by destruct armed.
  - split; simpl; rewrite ?Ht, ?Hn, ?Hc.
    + intros k' t [[-> ->]|[Ht' Hp]]%Hl; simpl.
      * split_and!; [done..|lia|done|]. destruct armed; [done|exact Hmp].
      * destruct (H1 k' t Ht') as (? & ? & ? & ? & Hto). split_and!; [done..|lia|done|].
        destruct (timeout t); [done|]. rewrite Hm by lia. done.
    + intros k1 k2 t1 t2 [[-> ->]|[Ht1 Hp1]]%Hl [[-> ->]|[Ht2 Hp2]]%Hl; simpl; try done;
        try lia. by eapply H2.
    + intros h k' ms Hh. destruct (decide (h = p)) as [->|Hhp].
      * rewrite Hmp in Hh. destruct armed; [|done]. injection Hh as <- <-.
        split_and!; [lia|done|].
        intros k2 t [[-> ->]|[Ht2 Hp2]]%Hl; [done|lia].
      * rewrite Hm in Hh by done. destruct (H3 h k' ms Hh) as (? & ? & Hu).
        split_and!; [lia|done|].
        intros k2 t [[-> ->]|[Ht2 Hp2]]%Hl; simpl; [done|]. by apply Hu.
    + intros q Hq. apply H4 in Hq. lia.
Qed.

Lemma truthy_str s : truthy (Some (JStr s)) = true ↔ s ≠ "".
Proof. destruct s; simpl; split; done. Qed.

Lemma wf_runTurn_resume params response c : wf c → wf (runTurn_resume params response c).2.
Proof.
  intros H. unfold runTurn_resume.
  destruct (truthy (get "id" (get "turn" response))) eqn:E; simpl; [|done].
  destruct (get "id" (get "turn" response)) as [[| | |k| |]|]; try done.
  assert (k ≠ "") as Hk by (by destruct k).
  exact (wf_trackTurn (Params.threadId params) k (Params.timeoutMs params) c Hk H).
Qed.

Lemma wf_handleNotification method params c : wf c → wf (handleNotification method params c).2.
Proof.
  intros [Hr Hg]. unfold handleNotification.
  assert (∀ key tracker text items, turns c !! key = Some tracker →
    wf (set_turns (<[key := with_text text items tracker]> (turns c)) c)) as Htext.
  { intros. split; [by eapply wf_requests_frame; [..|exact Hr]|by apply wf_registry_text]. }
  assert (∀ key tracker s, turns c !! key = Some tracker →
    wf (settle (TurnCall (promise tracker) s)
         (match timeout tracker with
          | Some t => clearTimeout t (set_turns (delete key (turns c)) c)
          | None => set_turns (delete key (turns c)) c
          end))) as Hdone.
  { intros. split; [|by apply wf_registry_complete].
    eapply wf_requests_frame; [..|exact Hr]; try by destruct (timeout tracker).
    intros id. simpl. rewrite request_calls_turn. by destruct (timeout tracker). }
  repeat case_match; cbn [snd]; try (by split);
    match goal with
    | H : map_get _ _ = Some _ |- _ => apply map_get_Some in H as [_ H]
    end; eauto;
    match goal with
    | H : turns c !! _ = Some _, E : timeout _ = _ |- wf (settle (TurnCall _ ?s) _) =>
        let Hd := fresh in pose proof (Hdone _ _ s H) as Hd; rewrite E in Hd; exact Hd
    end.
Qed.

Lemma wf_handleMessage message c : wf c → wf (handleMessage message c).2.
Proof.
  intros H. unfold handleMessage.
  destruct (isRpcResponse message) as [[]|e|]; simpl; try done.
  - destruct (map_get _ (pending c)) as [[k id]|] eqn:E; [|done].
    apply map_get_Some in E as [_ E]. destruct H as [Hr Hg].
    destruct (wf_pending _ Hr k id E) as [-> Hlt].
    assert (∀ s, wf (settle (RequestCall id s) (set_pending (delete (pretty id) (pending c)) c)))
      as Hs.
    { intros s. split.
      - apply wf_requests_settle; [|done]. destruct Hr as [H1 H2]. split; simpl; [|done].
        intros k' id' [_ ?]%lookup_delete_Some. by apply H1.
      - eapply wf_registry_frame; [..|exact Hg]; try done.
        intros p. simpl. apply turn_calls_request. }
    destruct (truthy _); [destruct (toError message)|]; simpl; eauto. by split.
  - destruct (isRpcRequest message) as [[]|e|]; simpl; try done.
    + pose proof (wf_handleServerRequest message c H).
      by destruct (handleServerRequest message c) as [[] ?].
    + destruct (isRpcNotification message) as [[]|e|]; simpl; try done.
      by apply wf_handleNotification.
Qed.

Lemma wf_step e c c' : step e c = Some c' → wf c → wf c'.
Proof.
  destruct e as [b| |method params|params|params response|msg|t|method params]; simpl.
  - intros [= <-]. apply wf_set_child.
  - intros [= <-]. apply wf_set_child.
  - intros [= <-]. apply wf_sendRequest.
  - intros [= <-]. apply wf_sendRequest.
  - intros E H. pose proof (wf_runTurn_resume params response c H) as Hw.
    destruct (runTurn_resume params response c) as [[] ?]; by simplify_eq.
  - intros E H. pose proof (wf_handleMessage msg c H) as Hw.
    destruct (handleMessage msg c) as [[] ?]; by simplify_eq.
  - intros [= <-]. apply wf_fireTimer.
  - intros [= <-]. apply wf_writeMessage.
Qed.

Lemma wf_run es c c' : run es c = Some c' → wf c → wf c'.
Proof.
  revert c. induction es as [|e es IH]; simpl; intros c.
  - by intros [= <-].
  - destruct (step e c) as [c1|] eqn:E; [|done]. intros Hr Hc. eapply IH; [done|].
    by eapply wf_step.
Qed.

Lemma reachable_wf c : reachable c → wf c.
Proof. intros (o & es & H). eapply wf_run; [done|]. apply wf_new. Qed.

Lemma reachable_run es c c' : reachable c → run es c = Some c' → reachable c'.
Proof.
  intros (o & es0 & H0) H. exists o, (es0 ++ es).
  clear -H0 H. revert H0. generalize (new_client o). induction es0 as [|e es0 IH]; simpl.
  - by intros ? [= ->].
  - intros c0. destruct (step e c0); [|done]. apply IH.
Qed.

(** ** [runTurn]: a response without a turn id *)

Lemma runTurn_resume_falsy params response c :
  truthy (get "id" (get "turn" response)) = false →
  runTurn_resume params response c =
    (Exn (Error "codex app-server turn/start missing turn id"), c).
Proof. unfold runTurn_resume. by intros ->. Qed.

(** C8. When the response to [turn/start] has no [turn.id], or an empty one,
    the [runTurn] call throws "codex app-server turn/start missing turn id"
    in the same handler and leaves the client, and with it the turn
    registry, as it was: no tracker is created. *)
Theorem runTurn_missing_turn_id params response c :
  get "id" (get "turn" response) = None ∨ get "id" (get "turn" response) = Some (JStr "") →
  runTurn_resume params response c =
    (Exn (Error "codex app-server turn/start missing turn id"), c) ∧
  turns (runTurn_resume params response c).2 = turns c.
Proof.
  intros H. rewrite runTurn_resume_falsy; [done|]. by destruct H as [-> | ->].
Qed.

Lemma runTurn_missing_turn_id_witness :
  runTurn_resume sample_params (Some (JObj [("turn", JObj [("status", JStr "inProgress")])]))
    sample_client =
  (Exn (Error "codex app-server turn/start missing turn id"), sample_client) ∧
  turns (runTurn_resume sample_params
           (Some (JObj [("turn", JObj [("status", JStr "inProgress")])])) sample_client).2 =
  turns sample_client.
Proof.
  apply (runTurn_missing_turn_id sample_params
           (Some (JObj [("turn", JObj [("status", JStr "inProgress")])])) sample_client).
  left. reflexivity.
Defined.

(** ** Server requests *)

(** C7. With the child's input stream open, [handleServerRequest] writes
    exactly one line in answer to a request with method [m], carrying the
    request's id: for the two approval methods the result [{decision}] with
    "accept" when [autoApprove] is set and "decline" otherwise; for
    [item/tool/requestUserInput] the result [{answers: {}}]; for
    [item/tool/call] a result with [success: false] and the text "clawd does
    not support dynamic tool calls"; for [account/chatgptAuthTokens/refresh]
    an error with code -32601; for every other method an error with code
    -32601 and message "unsupported request: m". *)
Theorem server_request_policy c request m lines :
  child c = Some {| stdin := Some lines |} →
  get "method" (Some request) = Some (JStr m) →
  ∃ body,
    handleServerRequest request c =
      (Ret tt,
       set_child (Some {| stdin := Some (lines ++
         [JObj (mkobj [("jsonrpc", Some (JStr "2.0")); ("id", get "id" (Some request));
                       body])]) |}) c) ∧
    let decision := if autoApprove (opts c) then "accept" else "decline" in
    (m = "item/commandExecution/requestApproval" ∨ m = "item/fileChange/requestApproval" →
       body = ("result", Some (JObj [("decision", JStr decision)]))) ∧
    (m = "item/tool/requestUserInput" →
       body = ("result", Some (JObj [("answers", JObj [])]))) ∧
    (m = "item/tool/call" →
       body = ("result", Some (JObj [("output", JStr "clawd does not support dynamic tool calls");
                                     ("success", JBool false)]))) ∧
    (m = "account/chatgptAuthTokens/refresh" →
       body = ("error", Some (JObj [("code", JNum (-32601));
                                    ("message", JStr "auth token refresh unsupported")]))) ∧
    (m ≠ "item/commandExecution/requestApproval" → m ≠ "item/fileChange/requestApproval" →
     m ≠ "item/tool/requestUserInput" → m ≠ "item/tool/call" →
     m ≠ "account/chatgptAuthTokens/refresh" →
       body = ("error", Some (JObj [("code", JNum (-32601));
                                    ("message", JStr ("unsupported request: " +:+ m))]))).
Proof.
  intros Hc Hm. unfold handleServerRequest, sendResponse, sendError, writeMessage.
  rewrite Hm, Hc. unfold is_str.
  repeat
    match goal with
    | |- context [bool_decide (m = ?s)] =>
        destruct (decide (m = s)) as [->|?];
          [eexists; split; [reflexivity|]; cbv zeta; split_and!; intros;
             first [reflexivity | done | by intuition discriminate]
          |rewrite (bool_decide_eq_false_2 (m = s)) by done]
    end.
  eexists; split; [reflexivity|]. cbv zeta. split_and!; intros; try done.
  by intuition.
Qed.

(** ** The turn registry *)

Lemma handleNotification_turn_completed c k tracker params :
  k ≠ "" → turns c !! k = Some tracker →
  get "id" (get "turn" params) = Some (JStr k) →
  ∃ r,
    handleNotification (Some (JStr "turn/completed")) params c =
      (Ret tt,
       settle (TurnCall (promise tracker) (Fulfilled r))
         (match timeout tracker with
          | Some t => clearTimeout t (set_turns (delete k (turns c)) c)
          | None => set_turns (delete k (turns c)) c
          end)) ∧
    outputText r = Some (lastNonEmptyText tracker) ∧
    let st := get "status" (get "turn" params) in
    let msg := get "message" (get "error" (get "turn" params)) in
    (st = Some (JStr "completed") → status r = completed ∧ error r = None) ∧
    (st = Some (JStr "interrupted") → status r = interrupted ∧ error r = None) ∧
    (st ≠ Some (JStr "completed") → st ≠ Some (JStr "interrupted") →
       status r = failed ∧
       (∀ m, msg = Some m → m ≠ JNull → error r = Some m) ∧
       (msg = None ∨ msg = Some JNull → error r = Some (JStr "codex turn failed"))).
Proof.
  intros Hk Ht Hid. unfold handleNotification. simpl is_str. cbv iota.
  rewrite Hid. rewrite (proj2 (truthy_str k) Hk). cbn [negb].
  rewrite map_get_str, Ht. cbn [fmap option_fmap option_map].
  cbv zeta.
  generalize (get "message" (get "error" (get "turn" params))) as msg.
  generalize (get "status" (get "turn" params)) as st. intros st msg.
  destruct (is_str "completed" st) eqn:E1.
  { eexists; split; [reflexivity|]. split; [done|].
    destruct st as [[]|]; try done. apply bool_decide_eq_true in E1 as ->.
    split_and!; try done. }
  destruct (is_str "interrupted" st) eqn:E2.
  { eexists; split; [reflexivity|]. split; [done|].
    destruct st as [[]|]; try done. apply bool_decide_eq_true in E2 as ->.
    split_and!; try done. }
  eexists; split; [reflexivity|]. split; [done|]. simpl.
  split_and!.
  - intros ->. by vm_compute in E1.
  - intros ->. by vm_compute in E2.
  - intros _ _. split_and!; [done| |].
    + intros m -> Hm. by destruct m.
    + by intros [-> | ->].
Qed.

(** C1. For a tracker in the registry of a reachable client, handling
    [turn/completed] with the tracker's turn id calls the [resolve] of the
    caller's promise, which was pending, and so fulfils it (it is never
    rejected): with [{status: completed, outputText}] for status "completed",
    [{status: interrupted, outputText}] for "interrupted", and [{status:
    failed, error, outputText}] for any other status, where [outputText] is the
    tracker's last non-empty trimmed text and [error] is the turn's error
    message or, when that is absent or null, "codex turn failed". *)
Theorem turn_completed_resolves c k tracker params :
  reachable c → turns c !! k = Some tracker →
  get "id" (get "turn" params) = Some (JStr k) →
  ∃ c' r,
    handleNotification (Some (JStr "turn/completed")) params c = (Ret tt, c') ∧
    turn_promise (promise tracker) c = None ∧
    turn_calls (promise tracker) (calls c') = [Fulfilled r] ∧
    turn_promise (promise tracker) c' = Some (Fulfilled r) ∧
    turns c' = delete k (turns c) ∧
    outputText r = Some (lastNonEmptyText tracker) ∧
    let st := get "status" (get "turn" params) in
    let msg := get "message" (get "error" (get "turn" params)) in
    (st = Some (JStr "completed") → status r = completed ∧ error r = None) ∧
    (st = Some (JStr "interrupted") → status r = interrupted ∧ error r = None) ∧
    (st ≠ Some (JStr "completed") → st ≠ Some (JStr "interrupted") →
       status r = failed ∧
       (∀ m, msg = Some m → m ≠ JNull → error r = Some m) ∧
       (msg = None ∨ msg = Some JNull → error r = Some (JStr "codex turn failed"))).
Proof.
  intros [_ Hg]%reachable_wf Ht Hid.
  destruct (wf_turns _ Hg k tracker Ht) as (_ & Hk & _ & Hcalls & _).
  destruct (handleNotification_turn_completed c k tracker params Hk Ht Hid)
    as (r & -> & Hout & Hst).
  eexists _, r. split; [reflexivity|].
  assert (turn_calls (promise tracker)
            (calls (settle (TurnCall (promise tracker) (Fulfilled r))
               (match timeout tracker with
                | Some t => clearTimeout t (set_turns (delete k (turns c)) c)
                | None => set_turns (delete k (turns c)) c
                end))) = [Fulfilled r]) as Hnew.
  { simpl. rewrite turn_calls_same.
    replace (calls _) with (calls c) by (by destruct (timeout tracker)).
    by rewrite Hcalls. }
  split_and!; try done.
  - unfold turn_promise. by rewrite Hcalls.
  - unfold turn_promise. by rewrite Hnew.
  - by destruct (timeout tracker).
Qed.

Lemma sample_reachable : reachable sample_client.
Proof. exists sample_opts, sample_history. vm_compute. reflexivity. Qed.

Lemma sample_turn : turns sample_client !! "u1" = Some sample_tracker.
Proof. vm_compute. reflexivity. Qed.

Lemma turn_completed_resolves_witness :
  ∃ c' r,
    handleNotification (Some (JStr "turn/completed"))
      (Some (JObj [("turn", JObj [("id", JStr "u1"); ("status", JStr "error");
                                  ("error", JObj [("message", JStr "boom")])])]))
      sample_client = (Ret tt, c') ∧
    turn_promise 0 c' = Some (Fulfilled r) ∧
    r = {| status := failed; outputText := Some ""; error := Some (JStr "boom") |}.
Proof.
  destruct (turn_completed_resolves sample_client "u1" sample_tracker
    (Some (JObj [("turn", JObj [("id", JStr "u1"); ("status", JStr "error");
                                ("error", JObj [("message", JStr "boom")])])]))
    sample_reachable sample_turn eq_refl)
    as (c' & r & H & _ & _ & Hp & _ & Hout & _ & _ & Hf).
  exists c', r. split; [exact H|]. split; [exact Hp|].
  destruct (Hf ltac:(discriminate) ltac:(discriminate)) as (Hst & Hm & _).
  specialize (Hm (JStr "boom") eq_refl ltac:(discriminate)).
  destruct r as [st out err]. simpl in *. by subst.
Defined.

Lemma server_request_policy_witness :
  ∃ lines body,
    handleServerRequest (encode (Request (IdNum 7) "foo/bar" None)) sample_client =
      (Ret tt,
       set_child (Some {| stdin := Some (lines ++
         [JObj (mkobj [("jsonrpc", Some (JStr "2.0")); ("id", Some (JNum 7)); body])]) |})
         sample_client) ∧
    length lines = 3 ∧
    body = ("error", Some (JObj [("code", JNum (-32601));
                                 ("message", JStr "unsupported request: foo/bar")])).
Proof.
  destruct (server_request_policy sample_client (encode (Request (IdNum 7) "foo/bar" None))
              "foo/bar" _ eq_refl eq_refl) as (body & H & _ & _ & _ & _ & Hb).
  eexists _, body. split; [exact H|]. split; [reflexivity|].
  apply Hb; discriminate.
Defined.

(** *** Agent text *)

Lemma append_assoc (a b c : string) : (a +:+ b) +:+ c = a +:+ b +:+ c.
Proof.
  induction a as [|x a IH]; [done|].
  change (String x ((a +:+ b) +:+ c) = String x (a +:+ b +:+ c)). by rewrite IH.
Qed.

Lemma append_empty_r (a : string) : a +:+ "" = a.
Proof.
  induction a as [|x a IH]; [done|].
  change (String x (a +:+ "") = String x a). by rewrite IH.
Qed.

Lemma handleMessage_notification message c :
  isRpcNotification message = Ret true →
  handleMessage message c =
    handleNotification (get "method" (Some message)) (get "params" (Some message)) c.
Proof.
  intros H. destruct (classic_object message) as [[fs ->]|Hn].
  - unfold handleMessage. revert H.
    unfold isRpcNotification, isRpcResponse, isRpcRequest, js_in.
    destruct (bool_decide (is_Some (field "id" fs))); [done|].
    by destruct (bool_decide (is_Some (field "method" fs))).
  - by destruct message; try done; destruct (Hn fields).
Qed.

Lemma handleNotification_delta c k tracker params i d :
  k ≠ "" → i ≠ "" → turns c !! k = Some tracker →
  get "turnId" params = Some (JStr k) →
  get "itemId" params = Some (JStr i) →
  get "delta" params = Some (JStr d) →
  handleNotification (Some (JStr "item/agentMessage/delta")) params c =
    (Ret tt,
     set_turns (<[k := with_text (default "" (itemTexts tracker !! i) +:+ d)
                         (<[i := default "" (itemTexts tracker !! i) +:+ d]>
                            (itemTexts tracker)) tracker]> (turns c)) c).
Proof.
  intros Hk Hi Ht Hk' Hi' Hd. unfold handleNotification. simpl is_str. cbv iota.
  rewrite Hk', Hi', Hd.
  rewrite (proj2 (truthy_str k) Hk), (proj2 (truthy_str i) Hi).
  cbn [negb orb is_string]. by rewrite map_get_str, Ht.
Qed.

Lemma delta_run c k tracker i ds ms :
  k ≠ "" → i ≠ "" → turns c !! k = Some tracker →
  Forall2 (is_delta k i) ds ms →
  ∃ c' tracker',
    run (Line <$> ms) c = Some c' ∧
    turns c' !! k = Some tracker' ∧
    (∀ j, j ≠ i → itemTexts tracker' !! j = itemTexts tracker !! j) ∧
    (ds = [] → c' = c ∧ tracker' = tracker) ∧
    (ds ≠ [] →
       let text := default "" (itemTexts tracker !! i) +:+ foldr String.append "" ds in
       itemTexts tracker' !! i = Some text ∧
       lastAgentText tracker' = text ∧
       (trim text ≠ "" → lastNonEmptyText tracker' = trim text)).
Proof.
  intros Hk Hi Ht H. revert c tracker Ht.
  induction H as [|d m ds ms Hd Hrest IH]; intros c tracker Ht.
  - exists c, tracker. by split_and!.
  - destruct Hd as ([Hn Hm] & Hk' & Hi' & Hd').
    simpl. rewrite (handleMessage_notification m c Hn), Hm.
    rewrite (handleNotification_delta c k tracker _ i d Hk Hi Ht Hk' Hi' Hd').
    set (next := default "" (itemTexts tracker !! i) +:+ d).
    set (tracker1 := with_text next _ tracker).
    destruct (IH (set_turns (<[k := tracker1]> (turns c)) c) tracker1)
      as (c' & tracker' & Hrun & Ht' & Hother & Hnil & Hcons).
    { simpl. apply lookup_insert_eq. }
    exists c', tracker'. split_and!; [done..| | |].
    + intros j Hj. rewrite (Hother j Hj). simpl. by rewrite lookup_insert_ne.
    + done.
    + intros _. cbv zeta.
      assert (itemTexts tracker1 !! i = Some next) as Hnext
        by (simpl; apply lookup_insert_eq).
      destruct ds as [|d' ds'].
      * destruct (Hnil eq_refl) as [_ ->]. simpl.
        rewrite append_empty_r.
        fold next. split_and!; [done..|]. intros ?. by rewrite decide_False.
      * destruct (Hcons ltac:(done)) as (H1 & H2 & H3). rewrite Hnext in H1, H2, H3.
        simpl in H1, H2, H3. unfold next in H1, H2, H3. rewrite append_assoc in H1, H2, H3.
        done.
Qed.

(** C3. For a tracker of turn [k] in the registry of a reachable client and
    an item id [i], handling [item/agentMessage/delta] notifications for [k]
    and [i] with the string deltas [ds], in this order, leaves for item [i]
    the text it had (none counts as empty) followed by the deltas in arrival
    order; after the last of them (so after each delta, [ds] being any
    non-empty sequence) the tracker's last agent text is that accumulated
    text, and its last non-empty text is the trim of it whenever the trim is
    not empty.  The texts of other items are untouched. *)
Theorem delta_accumulates c k tracker i ds ms :
  reachable c → turns c !! k = Some tracker → i ≠ "" → ds ≠ [] →
  Forall2 (is_delta k i) ds ms →
  ∃ c' tracker',
    run (Line <$> ms) c = Some c' ∧
    turns c' !! k = Some tracker' ∧
    let text := default "" (itemTexts tracker !! i) +:+ foldr String.append "" ds in
    itemTexts tracker' !! i = Some text ∧
    lastAgentText tracker' = text ∧
    (trim text ≠ "" → lastNonEmptyText tracker' = trim text) ∧
    (∀ j, j ≠ i → itemTexts tracker' !! j = itemTexts tracker !! j).
Proof.
  intros [_ Hg]%reachable_wf Ht Hi Hds H.
  destruct (wf_turns _ Hg k tracker Ht) as (_ & Hk & _).
  destruct (delta_run c k tracker i ds ms Hk Hi Ht H)
    as (c' & tracker' & Hrun & Ht' & Hother & _ & Hcons).
  exists c', tracker'. destruct (Hcons Hds) as (? & ? & ?). by split_and!.
Qed.

Lemma delta_accumulates_witness :
  ∃ c' tracker',
    run [Line (notification "item/agentMessage/delta"
                 [("turnId", JStr "u1"); ("itemId", JStr "i1"); ("delta", JStr "Hel")]);
         Line (notification "item/agentMessage/delta"
                 [("turnId", JStr "u1"); ("itemId", JStr "i1"); ("delta", JStr "lo ")]);
         Line (notification "item/agentMessage/delta"
                 [("turnId", JStr "u1"); ("itemId", JStr "i1"); ("delta", JStr "world")])]
      sample_client = Some c' ∧
    turns c' !! "u1" = Some tracker' ∧
    itemTexts tracker' !! "i1" = Some "Hello world" ∧
    lastAgentText tracker' = "Hello world" ∧
    lastNonEmptyText tracker' = "Hello world".
Proof.
  destruct (delta_accumulates sample_client "u1" sample_tracker "i1" ["Hel"; "lo "; "world"]
    [notification "item/agentMessage/delta"
       [("turnId", JStr "u1"); ("itemId", JStr "i1"); ("delta", JStr "Hel")];
     notification "item/agentMessage/delta"
       [("turnId", JStr "u1"); ("itemId", JStr "i1"); ("delta", JStr "lo ")];
     notification "item/agentMessage/delta"
       [("turnId", JStr "u1"); ("itemId", JStr "i1"); ("delta", JStr "world")]]
    sample_reachable sample_turn ltac:(discriminate) ltac:(discriminate))
    as (c' & tracker' & Hrun & Ht & Htext & Hlast & Htrim & _).
  { repeat constructor. }
  exists c', tracker'. split; [exact Hrun|]. split; [exact Ht|].
  split; [exact Htext|]. split; [exact Hlast|].
  apply Htrim. vm_compute. discriminate.
Defined.

Lemma handleNotification_item_completed c k tracker params :
  k ≠ "" → turns c !! k = Some tracker →
  get "turnId" params = Some (JStr k) →
  get "type" (get "item" params) = Some (JStr "agentMessage") →
  ∀ i text,
    get "id" (get "item" params) = Some (JStr i) → i ≠ "" →
    get "text" (get "item" params) = Some (JStr text) →
    handleNotification (Some (JStr "item/completed")) params c =
      (Ret tt,
       set_turns (<[k := with_text text (<[i := text]> (itemTexts tracker)) tracker]>
                    (turns c)) c).
Proof.
  intros Hk Ht Hk' Hty i text Hi Hi' Htext. unfold handleNotification.
  simpl is_str. cbv iota. rewrite Hk', Hty, Hi, Htext.
  rewrite (proj2 (truthy_str k) Hk), (proj2 (truthy_str i) Hi').
  assert (truthy (get "item" params) = true) as ->.
  { destruct (get "item" params) as [[]|]; try done. }
  simpl. by rewrite Ht.
Qed.

(** C4. [item/completed] for a tracker of turn [k] in the registry of a
    reachable client.  When the item's type is "agentMessage", the text kept
    for the item's id becomes the item's final text, whatever had been
    accumulated for it (the other items keep theirs), the last agent text
    becomes that text, and the last non-empty text becomes its trim when the
    trim is not empty and stays as it was otherwise, as after a delta ending
    in that text; nothing else in the tracker changes.  When the item's type
    is not "agentMessage" the client, and so every tracker, is unchanged. *)
Theorem item_completed_overwrites c k tracker params :
  reachable c → turns c !! k = Some tracker →
  get "turnId" params = Some (JStr k) →
  (get "type" (get "item" params) = Some (JStr "agentMessage") →
   ∀ i text,
     get "id" (get "item" params) = Some (JStr i) → i ≠ "" →
     get "text" (get "item" params) = Some (JStr text) →
     ∃ tracker',
       handleNotification (Some (JStr "item/completed")) params c =
         (Ret tt, set_turns (<[k := tracker']> (turns c)) c) ∧
       itemTexts tracker' = <[i := text]> (itemTexts tracker) ∧
       itemTexts tracker' !! i = Some text ∧
       lastAgentText tracker' = text ∧
       lastNonEmptyText tracker' =
         (if decide (trim text = "") then lastNonEmptyText tracker else trim text) ∧
       tracker' = with_text text (itemTexts tracker') tracker ∧
       (threadId tracker', turnId tracker', promise tracker', timeout tracker') =
       (threadId tracker, turnId tracker, promise tracker, timeout tracker)) ∧
  (get "type" (get "item" params) ≠ Some (JStr "agentMessage") →
   handleNotification (Some (JStr "item/completed")) params c = (Ret tt, c)).
Proof.
  intros [_ Hg]%reachable_wf Ht Hk'.
  destruct (wf_turns _ Hg k tracker Ht) as (_ & Hk & _).
  split.
  - intros Hty i text Hi Hi' Htext.
    rewrite (handleNotification_item_completed c k tracker params Hk Ht Hk' Hty i text Hi Hi' Htext).
    eexists. split; [reflexivity|]. simpl. split_and!; try done. apply lookup_insert_eq.
  - intros Hty. unfold handleNotification. simpl is_str. cbv iota.
    assert (is_str "agentMessage" (get "type" (get "item" params)) = false) as ->.
    { destruct (get "type" (get "item" params)) as [[]|]; try done.
      simpl. apply bool_decide_eq_false_2. congruence. }
    simpl. by rewrite !orb_true_r.
Qed.

Lemma sample_partial_reachable : reachable sample_client_partial.
Proof.
  exists sample_opts, (sample_history ++ [Line sample_delta]). vm_compute. reflexivity.
Qed.

Lemma sample_partial_turn : turns sample_client_partial !! "u1" = Some sample_tracker_partial.
Proof. vm_compute. reflexivity. Qed.

Lemma item_completed_overwrites_witness :
  ∃ tracker',
    handleNotification (Some (JStr "item/completed"))
      (Some (JObj [("turnId", JStr "u1");
                   ("item", JObj [("type", JStr "agentMessage"); ("id", JStr "i1");
                                  ("text", JStr "final")])])) sample_client_partial =
      (Ret tt, set_turns (<["u1" := tracker']> (turns sample_client_partial))
                 sample_client_partial) ∧
    itemTexts tracker' !! "i1" = Some "final" ∧
    lastAgentText tracker' = "final".
Proof.
  destruct (item_completed_overwrites sample_client_partial "u1" sample_tracker_partial
    (Some (JObj [("turnId", JStr "u1");
                 ("item", JObj [("type", JStr "agentMessage"); ("id", JStr "i1");
                                ("text", JStr "final")])]))
    sample_partial_reachable sample_partial_turn eq_refl) as [H _].
  destruct (H eq_refl "i1" "final" eq_refl ltac:(discriminate) eq_refl)
    as (tracker' & Hh & _ & Hi & Hl & _).
  exists tracker'. split; [exact Hh|]. split; [exact Hi|exact Hl].
Defined.

(** ** The pending-request table *)

Lemma holds_response m : holds m IsResponse = true ↔ isRpcResponse m = Ret true.
Proof. unfold holds. destruct (isRpcResponse m) as [[]|?|]; split; done. Qed.

Lemma is_str_true s v : is_str s v = true ↔ v = Some (JStr s).
Proof.
  unfold is_str. destruct v as [[]|]; try (split; done).
  rewrite bool_decide_eq_true. split; congruence.
Qed.

Lemma handleMessage_response m c :
  isRpcResponse m = Ret true →
  handleMessage m c =
    match map_get (normalizeId (get "id" (Some m))) (pending c) with
    | None => (Ret tt, c)
    | Some (k, id) =>
        if truthy (get "error" (Some m)) then
          match toError m with
          | Some e => (Ret tt, settle (RequestCall id (Rejected e))
                                 (set_pending (delete k (pending c)) c))
          | None => (IllTyped, c)
          end
        else (Ret tt, settle (RequestCall id (Fulfilled (get "result" (Some m))))
                        (set_pending (delete k (pending c)) c))
    end.
Proof. intros H. unfold handleMessage. by rewrite H. Qed.

(** What an operation leaves alone. *)
Lemma handleNotification_requests method params c :
  let c' := (handleNotification method params c).2 in
  nextId c' = nextId c ∧ pending c' = pending c ∧ child c' = child c ∧
  ∀ id, request_calls id (calls c') = request_calls id (calls c).
Proof.
  unfold handleNotification.
  repeat case_match; cbn [snd]; split_and!; try done;
    intros id; simpl; rewrite request_calls_turn; unfold clearTimeout; done.
Qed.

Lemma handleServerRequest_tables request c :
  let c' := (handleServerRequest request c).2 in
  nextId c' = nextId c ∧ pending c' = pending c ∧ calls c' = calls c ∧
  turns c' = turns c ∧ timers c' = timers c ∧ nextTurn c' = nextTurn c.
Proof.
  cbv zeta. unfold handleServerRequest, sendResponse, sendError.
  repeat case_match; cbn [snd]; try done;
    match goal with
    | |- context [writeMessage ?m ?c] => destruct (writeMessage_child m c) as [x ->]
    end; done.
Qed.

Lemma trackTurn_requests thread k timeoutMs c :
  let c' := (trackTurn thread k timeoutMs c).2 in
  nextId c' = nextId c ∧ pending c' = pending c ∧ calls c' = calls c ∧ child c' = child c.
Proof. unfold trackTurn. by repeat case_match. Qed.

Lemma runTurn_resume_requests params response c :
  let c' := (runTurn_resume params response c).2 in
  nextId c' = nextId c ∧ pending c' = pending c ∧ calls c' = calls c ∧ child c' = child c.
Proof.
  unfold runTurn_resume. repeat case_match; cbn [snd]; try done.
  match goal with
  | H : trackTurn ?a ?b ?x ?c = (_, ?c') |- _ =>
      pose proof (trackTurn_requests a b x c) as Hq; rewrite H in Hq
  end. done.
Qed.

Lemma sendRequest_effect method params c :
  let id := nextId c in
  let c' := (sendRequest method params c).2 in
  (sendRequest method params c).1 = id ∧
  nextId c' = (id + 1)%Z ∧ pending c' = <[pretty id := id]> (pending c) ∧
  turns c' = turns c ∧ timers c' = timers c ∧ nextTurn c' = nextTurn c ∧
  ((∃ lines, child c = Some {| stdin := Some lines |}) → calls c' = calls c) ∧
  ((child c = None ∨ child c = Some {| stdin := None |}) →
     child c' = child c ∧
     calls c' = calls c ++ [RequestCall id (Rejected (Error "codex app-server not running"))]) ∧
  (∀ id', id' ≠ id → request_calls id' (calls c') = request_calls id' (calls c)) ∧
  (∀ p, turn_calls p (calls c') = turn_calls p (calls c)).
Proof.
  cbv zeta. unfold sendRequest, writeMessage. cbn [child set_pending set_nextId].
  destruct (child c) as [[[lines|]]|] eqn:E; simpl; split_and!; try done;
    try (by intros [|]); try (by intros [? ?]);
    try (intros; by rewrite request_calls_other);
    try (intros; by rewrite turn_calls_request).
Qed.

Lemma handleMessage_not_response m c :
  isRpcResponse m ≠ Ret true →
  let c' := (handleMessage m c).2 in
  nextId c' = nextId c ∧ pending c' = pending c ∧
  ∀ id, request_calls id (calls c') = request_calls id (calls c).
Proof.
  intros H. cbv zeta. unfold handleMessage.
  destruct (isRpcResponse m) as [[]|?|]; try done.
  destruct (isRpcRequest m) as [[]|?|]; try done.
  - destruct (handleServerRequest_tables m c) as (? & ? & Hc & _).
    destruct (handleServerRequest m c) as [[] ?]; simpl in *; try done; by rewrite Hc.
  - destruct (isRpcNotification m) as [[]|?|]; try done.
    destruct (handleNotification_requests (get "method" (Some m)) (get "params" (Some m)) c)
      as (? & ? & _ & ?). done.
Qed.

Lemma fireTimer_requests t c :
  nextId (fireTimer t c) = nextId c ∧ pending (fireTimer t c) = pending c ∧
  child (fireTimer t c) = child c ∧
  ∀ id, request_calls id (calls (fireTimer t c)) = request_calls id (calls c).
Proof.
  unfold fireTimer. destruct (timers c !! t) as [[k ms]|]; [|done].
  split_and!; try done. intros id. simpl. apply request_calls_turn.
Qed.

(** One event, seen from the request that was given id [id]: a Response with
    that id removes the entry and makes one call on the promise, or is
    dropped when the entry is gone; no other event touches either. *)
Lemma step_request e c c' id :
  wf c → (id < nextId c)%Z → step e c = Some c' →
  (id < nextId c')%Z ∧
  if answers id e then
    match pending c !! pretty id with
    | Some _ => pending c' !! pretty id = None ∧
                ∃ s, request_calls id (calls c') = request_calls id (calls c) ++ [s]
    | None => c' = c
    end
  else pending c' !! pretty id = pending c !! pretty id ∧
       request_calls id (calls c') = request_calls id (calls c).
Proof.
  intros [Hr Hg] Hid.
  assert (∀ method params,
    let c1 := (sendRequest method params c).2 in
    (id < nextId c1)%Z ∧ pending c1 !! pretty id = pending c !! pretty id ∧
    request_calls id (calls c1) = request_calls id (calls c)) as Hsend.
  { intros method params.
    destruct (sendRequest_effect method params c) as (_ & Hn & Hp & _ & _ & _ & _ & _ & Hc & _).
    cbv zeta. rewrite Hn, Hp. split_and!; [lia| |apply Hc; lia].
    apply lookup_insert_ne. intros ?%(inj pretty). lia. }
  destruct e as [b| |method params|params|params response|m|t|method params];
    cbn [step answers].
  - by intros [= <-].
  - by intros [= <-].
  - intros [= <-]. apply Hsend.
  - intros [= <-]. apply Hsend.
  - destruct (runTurn_resume_requests params response c) as (Hn & Hp & Hc & _).
    destruct (runTurn_resume params response c) as [[] c1]; intros [= <-]; simpl in *;
      by rewrite Hn, Hp, Hc.
  - destruct (isRpcResponse m) as [[]|?|] eqn:E.
    2-4: assert (holds m IsResponse = false) as ->
           by (apply not_true_iff_false; rewrite holds_response, E; done);
         assert (isRpcResponse m ≠ Ret true) as Hne by (by rewrite E);
         destruct (handleMessage_not_response m c Hne) as (Hn & Hp & Hc);
         destruct (handleMessage m c) as [[] c1]; intros [= <-]; simpl in *;
           by rewrite Hn, Hp, Hc.
    rewrite (proj2 (holds_response m) E), (handleMessage_response m c E).
    cbn [andb].
    destruct (is_str (pretty id) (normalizeId (get "id" (Some m)))) eqn:Ek.
    + apply is_str_true in Ek as ->. rewrite map_get_str.
      destruct (pending c !! pretty id) as [id0|] eqn:Ep; simpl; [|by intros [= <-]].
      destruct (wf_pending _ Hr _ _ Ep) as [->%(inj pretty) _].
      destruct (truthy _); [destruct (toError m)|]; intros [= <-]; simpl;
        (split_and!; [done|apply lookup_delete_eq|]); eexists; apply request_calls_same.
    + destruct (map_get _ (pending c)) as [[k id0]|] eqn:Em; [|by intros [= <-]].
      apply map_get_Some in Em as [Hkey Ep].
      destruct (wf_pending _ Hr _ _ Ep) as [-> _].
      assert (id0 ≠ id) as Hne.
      { intros ->. rewrite Hkey in Ek. by rewrite (proj2 (is_str_true _ _)) in Ek. }
      assert (pretty id0 ≠@{string} pretty id) as Hk by (by intros ?%(inj pretty)).
      destruct (truthy _); [destruct (toError m)|]; intros [= <-]; simpl;
        (split_and!; [done|by apply lookup_delete_ne|by apply request_calls_other]).
  - intros [= <-]. destruct (fireTimer_requests t c) as (Hn & Hp & _ & Hc).
    by rewrite Hn, Hp, Hc.
  - intros [= <-]. by destruct (sendNotification_child method params c) as [x ->].
Qed.

Lemma run_request_gone es c c' id :
  wf c → (id < nextId c)%Z → run es c = Some c' →
  pending c !! pretty id = None →
  pending c' !! pretty id = None ∧ request_calls id (calls c') = request_calls id (calls c).
Proof.
  revert c. induction es as [|e es IH]; intros c Hwf Hid; simpl.
  - by intros [= <-].
  - destruct (step e c) as [c1|] eqn:E; [|done]. intros Hrun Hp.
    destruct (step_request e c c1 id Hwf Hid E) as [Hid1 H]. rewrite Hp in H.
    pose proof (wf_step e c c1 E Hwf) as Hwf1.
    destruct (answers id e).
    + subst c1. by apply IH.
    + destruct H as [Hp1 Hc1]. rewrite <- Hc1. by apply IH.
Qed.

Lemma run_request es c c' id l :
  wf c → (id < nextId c)%Z → run es c = Some c' →
  pending c !! pretty id = Some id → request_calls id (calls c) = l →
  if existsb (answers id) es
  then pending c' !! pretty id = None ∧ ∃ s, request_calls id (calls c') = l ++ [s]
  else pending c' !! pretty id = Some id ∧ request_calls id (calls c') = l.
Proof.
  revert c. induction es as [|e es IH]; intros c Hwf Hid; simpl.
  - by intros [= <-].
  - destruct (step e c) as [c1|] eqn:E; [|done]. intros Hrun Hp Hl.
    destruct (step_request e c c1 id Hwf Hid E) as [Hid1 H]. rewrite Hp in H.
    pose proof (wf_step e c c1 E Hwf) as Hwf1.
    destruct (answers id e); simpl.
    + destruct H as [Hp1 [s Hs]].
      destruct (run_request_gone es c1 c' id Hwf1 Hid1 Hrun Hp1) as [? Hc].
      split; [done|]. exists s. by rewrite Hc, Hs, Hl.
    + destruct H as [Hp1 Hc1]. apply (IH c1); [done..| |]; congruence.
Qed.

Lemma handleMessage_typed_response rid result err c :
  ∃ c', handleMessage (encode (Response rid result err)) c = (Ret tt, c').
Proof.
  destruct result as [r|], err as [e|];
    [rewrite (handleMessage_response _ c) by reflexivity..|by eexists];
    (destruct (map_get _ (pending c)) as [[k id]|]; [|by eexists]);
    eexists; reflexivity.
Qed.

Lemma run_response_lines rs c : ∃ c', run (response_lines rs) c = Some c'.
Proof.
  revert c. induction rs as [|[[rid result] err] rs IH]; intros c; [by eexists|].
  unfold response_lines. rewrite fmap_cons. cbn [run step fst snd].
  destruct (handleMessage_typed_response rid result err c) as [c1 ->]. apply IH.
Qed.

Lemma sendRequest_pair method params c :
  sendRequest method params c = (nextId c, (sendRequest method params c).2).
Proof.
  destruct (sendRequest_effect method params c) as [H _].
  destruct (sendRequest method params c). simpl in *. by subst.
Qed.

(** [answers], which goes through the client's own [isRpcResponse] and
    [normalizeId], picks the Responses that echo the id. *)
Lemma answers_echoes id e : answers id e = echoes id e.
Proof.
  destruct e as [b| |method params|params|params response|m|t|method params]; try done.
  destruct m as [|b|n|s|items|fs]; try done.
  unfold answers, echoes, holds, isRpcResponse, js_in, and_then, or_else.
  cbn [get].
  destruct (field "id" fs) as [v|] eqn:Eid.
  - rewrite (bool_decide_eq_true_2 (is_Some (Some v))) by eauto.
    assert (is_str (pretty id) (normalizeId (Some v)) =
            match v with
            | JNum n => bool_decide (n = id)
            | JStr s => bool_decide (s = pretty id)
            | _ => false
            end) as ->.
    { destruct v as [|b|n|s|items|fs']; try done. cbn [normalizeId is_str].
      apply bool_decide_ext. split; [apply (inj pretty)|by intros ->]. }
    destruct (bool_decide (is_Some (field "result" fs))),
      (bool_decide (is_Some (field "error" fs))); try done;
      by destruct v.
  - rewrite (bool_decide_eq_false_2 (is_Some None)) by (by intros [? ?]).
    cbn [andb]. by rewrite andb_false_r.
Qed.

Lemma existsb_answers_echoes id es : existsb (echoes id) es = existsb (answers id) es.
Proof.
  induction es as [|e es IH]; [done|]. cbn [existsb]. by rewrite IH, answers_echoes.
Qed.

(** C5. As amended: a request written to the running child by a reachable
    client gets a fresh id, an entry in the pending table and a pending
    promise.  After any further events, among them Responses in any order
    and number: if none of them was a Response echoing this id (as the
    number, or as its decimal string), the entry is still there and no call
    was made on the promise; if one was, the entry is gone and exactly one
    call of [resolve] or [reject] was made, so the promise is settled once,
    never twice, and no entry outlives its resolution.  Every sequence of
    typed Responses is handled to the end.  A Response whose id is the key of
    no entry (a number whose decimal string is no key, a string that is no
    key, or an id that is neither) leaves the client, table and promises
    included, as it was. *)
Theorem request_settled_once c method params lines :
  reachable c → child c = Some {| stdin := Some lines |} →
  ∃ id c1,
    sendRequest method params c = (id, c1) ∧
    pending c !! pretty id = None ∧
    pending c1 !! pretty id = Some id ∧
    request_promise id c1 = None ∧
    (∀ es c2, run es c1 = Some c2 →
       if existsb (echoes id) es
       then pending c2 !! pretty id = None ∧ ∃ s, request_calls id (calls c2) = [s]
       else pending c2 !! pretty id = Some id ∧ request_calls id (calls c2) = []) ∧
    (∀ rs, ∃ c2, run (response_lines rs) c1 = Some c2) ∧
    (∀ c' m, isRpcResponse m = Ret true →
       (∀ n, get "id" (Some m) = Some (JNum n) → pending c' !! pretty n = None) →
       (∀ s, get "id" (Some m) = Some (JStr s) → pending c' !! s = None) →
       handleMessage m c' = (Ret tt, c')).
Proof.
  intros Hreach Hchild. pose proof (reachable_wf c Hreach) as Hwf.
  exists (nextId c), (sendRequest method params c).2.
  destruct (sendRequest_effect method params c)
    as (_ & Hn & Hp & _ & _ & _ & Hok & _ & _ & _).
  pose proof (wf_sendRequest method params c Hwf) as Hwf1.
  assert (request_calls (nextId c) (calls (sendRequest method params c).2) = []) as Hcalls.
  { rewrite Hok by eauto. apply request_calls_fresh; [apply Hwf|lia]. }
  split_and!.
  - apply sendRequest_pair.
  - destruct (pending c !! pretty (nextId c)) as [id0|] eqn:E; [|done].
    destruct (wf_pending _ (proj1 Hwf) _ _ E) as [->%(inj pretty) ?]. lia.
  - rewrite Hp. apply lookup_insert_eq.
  - unfold request_promise. by rewrite Hcalls.
  - intros es c2 Hrun. rewrite existsb_answers_echoes.
    apply (run_request es _ c2 (nextId c) [] Hwf1); [lia|done| |done].
    rewrite Hp. apply lookup_insert_eq.
  - intros rs. apply run_response_lines.
  - intros c' m Hm Hnum Hstr. rewrite handleMessage_response by done.
    destruct (map_get _ (pending c')) as [[k id]|] eqn:E; [|done].
    apply map_get_Some in E as [Hk Hlook].
    destruct (get "id" (Some m)) as [[|b|n|s|items|fs]|] eqn:Eid; cbn [normalizeId] in Hk;
      try discriminate.
    + injection Hk as <-. by rewrite (Hnum n eq_refl) in Hlook.
    + injection Hk as <-. by rewrite (Hstr s eq_refl) in Hlook.
Qed.

(** C5 as stated fails for a request that is issued but cannot be written.
    A [threadStart] that goes on after [stop] sends its request while the
    client has no child: the request gets id 3 and an entry in the pending
    table, the write throws and the promise is rejected, and the entry is
    still in the table after this resolution.  When a Response with id 3
    arrives later, the entry is removed and [resolve] is called on the
    promise that was rejected already: a second call for one request. *)
Lemma request_settled_once_counterexample :
  stopped_client.(child) = None ∧
  (threadStart_request sample_thread_params stopped_client).1 = 3%Z ∧
  request_promise 3 unwritten_request
    = Some (Rejected (Error "codex app-server not running")) ∧
  pending unwritten_request !! "3" = Some 3%Z ∧
  (λ c2, (pending c2 !! "3", request_calls 3 (calls c2)))
    <$> run [Line late_response] unwritten_request
  = Some (None, [Rejected (Error "codex app-server not running");
                 Fulfilled (Some (JObj [("thread", JObj [("id", JStr "th1")])]))]).
Proof. vm_compute. split_and!; reflexivity. Qed.

Lemma request_settled_once_witness :
  ∃ c2 s,
    run (response_lines [(IdNum 5, Some JNull, None);
                         (IdNum 3, Some (JStr "ok"), None);
                         (IdStr "3", Some (JStr "again"), None)])
        (sendRequest "thread/start" None sample_client).2 = Some c2 ∧
    pending c2 !! "3" = None ∧
    request_calls 3 (calls c2) = [s].
Proof.
  destruct (request_settled_once sample_client "thread/start" None _
              sample_reachable eq_refl)
    as (id & c1 & Hsend & _ & _ & _ & Hes & Htot & _).
  rewrite sendRequest_pair in Hsend. injection Hsend as <- <-.
  destruct (Htot [(IdNum 5, Some JNull, None); (IdNum 3, Some (JStr "ok"), None);
                  (IdStr "3", Some (JStr "again"), None)]) as [c2 Hrun].
  specialize (Hes _ _ Hrun). destruct Hes as [Hp [s Hs]].
  exists c2, s. split; [exact Hrun|]. split; [exact Hp|exact Hs].
Defined.

(** C6. A Response whose id is the key of an entry of the pending table,
    the entry's promise being still pending: when the Response carries a
    result and no error (or a null one: a falsy [error] field counts as none),
    the promise is fulfilled with exactly that result;
    when it carries an error object, the promise is rejected with an error
    whose message is the object's [message], or "Unknown JSON-RPC error"
    when the object has none.  The entry is removed in both cases. *)
Theorem response_settles c m k id :
  isRpcResponse m = Ret true →
  normalizeId (get "id" (Some m)) = Some (JStr k) →
  pending c !! k = Some id →
  request_promise id c = None →
  (∀ v, get "result" (Some m) = Some v → truthy (get "error" (Some m)) = false →
     ∃ c', handleMessage m c = (Ret tt, c') ∧
           request_promise id c' = Some (Fulfilled (Some v)) ∧
           pending c' = delete k (pending c)) ∧
  (∀ efs, get "error" (Some m) = Some (JObj efs) →
     (∀ msg, field "message" efs = Some (JStr msg) →
        ∃ c', handleMessage m c = (Ret tt, c') ∧
              request_promise id c' = Some (Rejected (Error msg)) ∧
              pending c' = delete k (pending c)) ∧
     (field "message" efs = None →
        ∃ c', handleMessage m c = (Ret tt, c') ∧
              request_promise id c' = Some (Rejected (Error "Unknown JSON-RPC error")) ∧
              pending c' = delete k (pending c))).
Proof.
  intros Hm Hk Hp Hpend.
  assert (request_calls id (calls c) = []) as Hcalls by (by apply head_None).
  assert (∀ s c0, calls c0 = calls c →
            request_promise id (settle (RequestCall id s) c0) = Some s) as Hs.
  { intros s c0 Hc0. unfold request_promise. simpl.
    by rewrite request_calls_same, Hc0, Hcalls. }
  rewrite (handleMessage_response m c Hm), Hk, map_get_str, Hp.
  cbn [fmap option_fmap option_map]. split.
  - intros v Hv ->. rewrite Hv. eexists. split; [reflexivity|].
    split; [by apply Hs|done].
  - intros efs He. unfold toError. rewrite He. cbn [truthy get]. split.
    + intros msg ->. eexists. split; [reflexivity|]. split; [by apply Hs|done].
    + intros ->. eexists. split; [reflexivity|]. split; [by apply Hs|done].
Qed.

Lemma response_settles_witness :
  ∃ c',
    handleMessage
      (JObj [("jsonrpc", JStr "2.0"); ("id", JNum 3); ("error", JObj [("code", JNum (-32000))])])
      (sendRequest "thread/start" None sample_client).2 = (Ret tt, c') ∧
    request_promise 3 c' = Some (Rejected (Error "Unknown JSON-RPC error")).
Proof.
  destruct (response_settles (sendRequest "thread/start" None sample_client).2
    (JObj [("jsonrpc", JStr "2.0"); ("id", JNum 3); ("error", JObj [("code", JNum (-32000))])])
    "3" 3 eq_refl eq_refl ltac:(vm_compute; reflexivity) ltac:(vm_compute; reflexivity))
    as [_ H].
  destruct (H _ eq_refl) as [_ H'].
  destruct (H' eq_refl) as (c' & Hh & Hr & _).
  exists c'. split; [exact Hh|exact Hr].
Defined.



(** ** Timeouts *)

Lemma handleNotification_timers method params c p x :
  timers c !! p = Some x →
  timers (handleNotification method params c).2 !! p = Some x ∨
  (method = Some (JStr "turn/completed") ∧
   ∃ key tracker, get "id" (get "turn" params) = Some (JStr key) ∧
                  turns c !! key = Some tracker ∧ timeout tracker = Some p).
Proof.
  intros Hp. unfold handleNotification.
  repeat case_match; cbn [snd]; try (by left);
    match goal with
    | H : is_str "turn/completed" _ = true |- _ => apply is_str_true in H as ->
    end;
    match goal with
    | H : map_get _ _ = Some _ |- _ => apply map_get_Some in H as [Hid Ht]
    end;
    match goal with
    | H : timeout _ = Some ?t |- _ =>
        destruct (decide (t = p)) as [->|Hne];
          [right; eauto 10 | left; simpl; by rewrite lookup_delete_ne]
    end.
Qed.

Lemma handleMessage_timers m c p x :
  timers c !! p = Some x →
  timers (handleMessage m c).2 !! p = Some x ∨
  (isRpcNotification m = Ret true ∧
   get "method" (Some m) = Some (JStr "turn/completed") ∧
   ∃ key tracker, get "id" (get "turn" (get "params" (Some m))) = Some (JStr key) ∧
                  turns c !! key = Some tracker ∧ timeout tracker = Some p).
Proof.
  intros Hp. unfold handleMessage.
  destruct (isRpcResponse m) as [[]|?|]; try (by left).
  - left. repeat case_match; done.
  - destruct (isRpcRequest m) as [[]|?|]; try (by left).
    + left. destruct (handleServerRequest_tables m c) as (_ & _ & _ & _ & Ht & _).
      destruct (handleServerRequest m c) as [[] ?]; simpl in *; by rewrite ?Ht.
    + destruct (isRpcNotification m) as [[]|?|]; try (by left).
      destruct (handleNotification_timers (get "method" (Some m)) (get "params" (Some m))
                  c p x Hp) as [?|[? ?]]; [by left|right; done].
Qed.

Lemma trackTurn_timers thread k timeoutMs c p x :
  wf c → timers c !! p = Some x →
  timers (trackTurn thread k timeoutMs c).2 !! p = Some x.
Proof.
  intros [_ Hg] Hp. destruct x as [k' ms]. destruct (wf_timers _ Hg _ _ _ Hp) as [Hlt _].
  unfold trackTurn. case_match; simpl; [|done]. rewrite lookup_insert_ne; [done|lia].
Qed.

(** An armed timer stays armed until it fires or until [turn/completed]
    arrives for its turn. *)
Lemma step_timer e c c' p k ms :
  wf c → timers c !! p = Some (k, ms) → step e c = Some c' →
  completes k e = false → fires p e = false →
  timers c' !! p = Some (k, ms).
Proof.
  intros Hwf Hp. destruct e as [b| |method params|params|params response|m|t|method params];
    cbn [step completes fires].
  - by intros [= <-].
  - by intros [= <-].
  - intros [= <-] _ _.
    destruct (sendRequest_effect method params c) as (_ & _ & _ & _ & -> & _). done.
  - intros [= <-] _ _. unfold runTurn_request.
    match goal with
    | |- timers (sendRequest ?a ?b c).2 !! _ = _ =>
        destruct (sendRequest_effect a b c) as (_ & _ & _ & _ & -> & _)
    end. done.
  - intros Hstep _ _. revert Hstep. unfold runTurn_resume.
    destruct (negb _); [by intros [= <-]|].
    destruct (get "id" (get "turn" response)) as [[| | |k'| |]|]; try done.
    pose proof (trackTurn_timers (Params.threadId params) k' (Params.timeoutMs params)
                  c p _ Hwf Hp) as Ht.
    destruct (trackTurn _ _ _ c). by intros [= <-].
  - intros Hstep Hc _.
    destruct (handleMessage_timers m c p _ Hp) as [Ht|(Hn & Hm & key & tracker & Hid & Hk & Hto)].
    + destruct (handleMessage m c) as [[] ?]; by simplify_eq.
    + exfalso. destruct Hwf as [_ Hg].
      destruct (wf_turns _ Hg _ _ Hk) as (_ & _ & _ & _ & Hto'). rewrite Hto in Hto'.
      destruct (wf_timers _ Hg _ _ _ Hp) as (_ & _ & Hu).
      specialize (Hu key tracker Hk (eq_sym Hto')). subst key.
      unfold holds in Hc. rewrite Hn, Hm, Hid in Hc.
      by rewrite !(proj2 (is_str_true _ _)) in Hc.
  - intros [= <-] _ Hf. apply bool_decide_eq_false in Hf.
    unfold fireTimer. destruct (timers c !! t) as [[k' ms']|]; [|done].
    simpl. by rewrite lookup_delete_ne.
  - intros [= <-] _ _. by destruct (sendNotification_child method params c) as [x ->].
Qed.

Lemma run_timer es c c' p k ms :
  wf c → timers c !! p = Some (k, ms) → run es c = Some c' →
  existsb (completes k) es = false → existsb (fires p) es = false →
  timers c' !! p = Some (k, ms).
Proof.
  revert c. induction es as [|e es IH]; intros c Hwf Hp; simpl.
  - by intros [= <-].
  - destruct (step e c) as [c1|] eqn:E; [|done].
    intros Hrun [Hc Hcs]%orb_false_elim [Hf Hfs]%orb_false_elim.
    apply (IH c1); [by eapply wf_step| |done..]. by eapply step_timer.
Qed.

Lemma handleNotification_no_tracker c k method params :
  turns c !! k = None → names_turn k method params →
  handleNotification (Some (JStr method)) params c = (Ret tt, c).
Proof.
  intros Hk [[-> Hid]|[Hm Hid]]; unfold handleNotification.
  - simpl is_str. cbv iota. rewrite Hid, map_get_str, Hk. by destruct (negb _).
  - rewrite Hid, map_get_str, Hk. simpl.
    rewrite (bool_decide_eq_false_2 (method = "turn/completed")) by done.
    by repeat case_match.
Qed.

Lemma step_no_tracker e c c' k :
  turns c !! k = None → step e c = Some c' → starts k e = false → turns c' !! k = None.
Proof.
  intros Hk. destruct e as [b| |method params|params|params response|m|t|method params];
    cbn [step starts].
  - by intros [= <-].
  - by intros [= <-].
  - intros [= <-] _. destruct (sendRequest_effect method params c) as (_ & _ & _ & -> & _).
    done.
  - intros [= <-] _. unfold runTurn_request.
    match goal with
    | |- turns (sendRequest ?a ?b c).2 !! _ = _ =>
        destruct (sendRequest_effect a b c) as (_ & _ & _ & -> & _)
    end. done.
  - unfold runTurn_resume. destruct (negb _); [by intros [= <-]|].
    destruct (get "id" (get "turn" response)) as [[| | |k'| |]|]; try done.
    unfold trackTurn. intros [= <-] Hne. simpl.
    assert (k' ≠ k) by (intros ->; by rewrite (proj2 (is_str_true _ _)) in Hne).
    rewrite lookup_insert_ne by done. by case_match.
  - intros Hstep _. assert (turns (handleMessage m c).2 !! k = None) as H.
    { unfold handleMessage.
      destruct (isRpcResponse m) as [[]|?|]; try done.
      - by repeat case_match.
      - destruct (isRpcRequest m) as [[]|?|]; try done.
        + destruct (handleServerRequest_tables m c) as (_ & _ & _ & Ht & _).
          destruct (handleServerRequest m c) as [[] ?]; simpl in *; by rewrite ?Ht.
        + destruct (isRpcNotification m) as [[]|?|]; try done.
          unfold handleNotification.
          repeat case_match; cbn [snd]; try done;
            match goal with
            | H : map_get _ _ = Some _ |- _ => apply map_get_Some in H as [_ Ht]
            end; simpl;
            first [ rewrite lookup_insert_ne; [done|congruence]
                  | rewrite lookup_delete_ne; [done|congruence] ]. }
    destruct (handleMessage m c) as [[] ?]; by simplify_eq.
  - intros [= <-] _. unfold fireTimer. destruct (timers c !! t) as [[k' ms']|]; [|done].
    simpl. destruct (decide (k' = k)) as [->|]; [apply lookup_delete_eq|].
    by rewrite lookup_delete_ne.
  - intros [= <-] _. by destruct (sendNotification_child method params c) as [x ->].
Qed.

Lemma run_no_tracker es c c' k :
  turns c !! k = None → run es c = Some c' → existsb (starts k) es = false →
  turns c' !! k = None.
Proof.
  revert c. induction es as [|e es IH]; intros c Hk; simpl.
  - by intros [= <-].
  - destruct (step e c) as [c1|] eqn:E; [|done].
    intros Hrun [Hs Hss]%orb_false_elim. apply (IH c1); [|done..]. by eapply step_no_tracker.
Qed.

(** C2. A [runTurn] call that resumes with turn id [k] and a positive
    timeout [ms] arms a timer of [ms] milliseconds for its tracker.  If the
    timer fires before any [turn/completed] for [k] was handled, whatever
    else happened meanwhile, the caller's promise, pending until then, is
    rejected with "codex turn timeout" by its one and only call, and the
    registry has no tracker for [k] any more.  From then on, as long as no
    new turn with id [k] is started, every [item/agentMessage/delta],
    [item/completed] or [turn/completed] notification that names [k] finds no
    tracker and leaves the client exactly as it was.  (The delay itself is not
    modelled: the timer is an event that occurs while it is armed.) *)
Theorem turn_timeout c params response k ms :
  reachable c →
  get "id" (get "turn" response) = Some (JStr k) → k ≠ "" →
  Params.timeoutMs params = Some ms → (0 < ms)%Z →
  ∃ p c0,
    runTurn_resume params response c = (Ret p, c0) ∧
    timers c0 !! p = Some (k, ms) ∧
    (∃ tracker, turns c0 !! k = Some tracker ∧ promise tracker = p) ∧
    ∀ es c1,
      run es c0 = Some c1 →
      existsb (completes k) es = false → existsb (fires p) es = false →
      turn_promise p c1 = None ∧
      turn_calls p (calls (fireTimer p c1)) = [Rejected (Error "codex turn timeout")] ∧
      turn_promise p (fireTimer p c1) = Some (Rejected (Error "codex turn timeout")) ∧
      turns (fireTimer p c1) !! k = None ∧
      ∀ es' c2,
        run es' (fireTimer p c1) = Some c2 → existsb (starts k) es' = false →
        turns c2 !! k = None ∧
        ∀ method params',
          names_turn k method params' →
          handleNotification (Some (JStr method)) params' c2 = (Ret tt, c2).
Proof.
  intros Hreach Hid Hk Hms Hpos. pose proof (reachable_wf c Hreach) as Hwf.
  exists (nextTurn c), (trackTurn (Params.threadId params) k (Some ms) c).2.
  pose proof (wf_trackTurn (Params.threadId params) k (Some ms) c Hk Hwf) as Hwf0.
  assert (bool_decide (ms ≠ 0 ∧ 0 < ms)%Z = true) as Harmed
    by (apply bool_decide_eq_true; lia).
  assert (timers (trackTurn (Params.threadId params) k (Some ms) c).2 !! nextTurn c
          = Some (k, ms)) as Htimer.
  { unfold trackTurn. rewrite Harmed. simpl. apply lookup_insert_eq. }
  split_and!.
  - unfold runTurn_resume. rewrite Hid, (proj2 (truthy_str k) Hk), Hms. reflexivity.
  - done.
  - eexists. split; [unfold trackTurn; simpl; apply lookup_insert_eq|done].
  - intros es c1 Hrun Hc Hf.
    pose proof (wf_run es _ c1 Hrun Hwf0) as [_ Hg1].
    pose proof (run_timer es _ c1 _ _ _ Hwf0 Htimer Hrun Hc Hf) as Ht1.
    destruct (wf_timers _ Hg1 _ _ _ Ht1) as (_ & Hcalls & _).
    assert (turn_calls (nextTurn c) (calls (fireTimer (nextTurn c) c1))
            = [Rejected (Error "codex turn timeout")]) as Hfired.
    { unfold fireTimer. rewrite Ht1. simpl. by rewrite turn_calls_same, Hcalls. }
    assert (turns (fireTimer (nextTurn c) c1) !! k = None) as Hgone.
    { unfold fireTimer. rewrite Ht1. simpl. apply lookup_delete_eq. }
    split_and!; try done.
    + unfold turn_promise. by rewrite Hcalls.
    + unfold turn_promise. by rewrite Hfired.
    + intros es' c2 Hrun' Hs.
      pose proof (run_no_tracker es' _ c2 k Hgone Hrun' Hs) as Hgone'.
      split; [done|]. intros method params' Hn. by apply (handleNotification_no_tracker c2 k).
Qed.

Lemma turn_timeout_witness :
  ∃ c2,
    run [Line sample_delta; Timer 0;
         Line (notification "turn/completed"
                 [("turn", JObj [("id", JStr "u1"); ("status", JStr "completed")])])]
        (runTurn_resume sample_params (Some (JObj [("turn", JObj [("id", JStr "u1")])]))
           (new_client sample_opts)).2 = Some c2 ∧
    turn_promise 0 c2 = Some (Rejected (Error "codex turn timeout")) ∧
    turns c2 !! "u1" = None ∧
    handleNotification (Some (JStr "item/completed"))
      (Some (JObj [("turnId", JStr "u1");
                   ("item", JObj [("type", JStr "agentMessage"); ("id", JStr "i1");
                                  ("text", JStr "late")])])) c2 = (Ret tt, c2).
Proof.
  destruct (turn_timeout (new_client sample_opts) sample_params
              (Some (JObj [("turn", JObj [("id", JStr "u1")])])) "u1" 50)
    as (p & c0 & Hres & _ & _ & H); [|reflexivity|discriminate|reflexivity|lia|].
  { exists sample_opts, []. reflexivity. }
  injection Hres as <- <-.
  destruct (H [Line sample_delta] _ eq_refl eq_refl eq_refl) as (_ & _ & Hrej & Hgone & H').
  destruct (H' [Line (notification "turn/completed"
                        [("turn", JObj [("id", JStr "u1"); ("status", JStr "completed")])])]
               _ eq_refl eq_refl) as [Hgone' Hinert].
  eexists. split; [reflexivity|]. split; [exact Hrej|]. split; [exact Hgone|].
  apply (Hinert "item/completed"). right. split; [discriminate|reflexivity].
Defined.

(** ** Scenarios *)

(** Two deltas and [turn/completed]: the caller gets the accumulated text. *)
Example scenario_deltas_then_completed :
  turn_promise 0 <$>
    run [Line (notification "item/agentMessage/delta"
                 [("turnId", JStr "u1"); ("itemId", JStr "i1"); ("delta", JStr "Hello ")]);
         Line (notification "item/agentMessage/delta"
                 [("turnId", JStr "u1"); ("itemId", JStr "i1"); ("delta", JStr "world")]);
         Line (notification "turn/completed"
                 [("turn", JObj [("id", JStr "u1"); ("status", JStr "completed")])])]
        sample_client
  = Some (Some (Fulfilled {| status := completed; outputText := Some "Hello world";
                             error := None |})).
Proof. vm_compute. reflexivity. Qed.

(** The final text of an item replaces what its deltas had accumulated, and
    surrounding white space is trimmed from the output text. *)
Example scenario_final_text :
  turn_promise 0 <$>
    run [Line sample_delta;
         Line (notification "item/completed"
                 [("turnId", JStr "u1");
                  ("item", JObj [("type", JStr "agentMessage"); ("id", JStr "i1");
                                 ("text", JStr "  final ")])]);
         Line (notification "turn/completed"
                 [("turn", JObj [("id", JStr "u1"); ("status", JStr "interrupted")])])]
        sample_client
  = Some (Some (Fulfilled {| status := interrupted; outputText := Some "final";
                             error := None |})).
Proof. vm_compute. reflexivity. Qed.

(** An approval request with auto-approve off is declined. *)
Example scenario_decline :
  (handleServerRequest
     (encode (Request (IdStr "r1") "item/commandExecution/requestApproval" None))
     (set_child (Some {| stdin := Some [] |}) (new_client sample_opts))).2
  = set_child (Some {| stdin := Some
      [JObj [("jsonrpc", JStr "2.0"); ("id", JStr "r1");
             ("result", JObj [("decision", JStr "decline")])]] |})
      (new_client sample_opts).
Proof. vm_compute. reflexivity. Qed.

(** A decoded line that is not an object makes the [in] test throw; the
    client is as before. *)
Example scenario_primitive_line :
  handleMessage (JNum 5) sample_client = (Exn TypeError, sample_client).
Proof. reflexivity. Qed.

(** The entry of a request that could not be written is removed only by a
    Response that carries its id; the caller's promise stays rejected. *)
Example scenario_failed_send_then_response :
  let c1 := (sendRequest "thread/start" None (new_client sample_opts)).2 in
  pending c1 !! "1" = Some 1%Z ∧
  (λ c2, (pending c2 !! "1", request_promise 1 c2)) <$>
    run [Line (encode (Response (IdNum 1) (Some JNull) None))] c1
  = Some (None, Some (Rejected (Error "codex app-server not running"))).
Proof. vm_compute. split; reflexivity. Qed.

(** * Further properties of the session core *)

(** ** How one event changes the registry, the timers and the log *)

Lemma handleNotification_registry method params c :
  let c' := (handleNotification method params c).2 in
  nextTurn c' = nextTurn c ∧
  (∀ h x, timers c' !! h = Some x → timers c !! h = Some x) ∧
  (∀ k t, turns c' !! k = Some t →
     ∃ t0, turns c !! k = Some t0 ∧ promise t = promise t0 ∧
           turnId t = turnId t0 ∧ timeout t = timeout t0).
Proof.
  cbv zeta. unfold handleNotification.
  assert (∀ key tracker text items,
    turns c !! key = Some tracker → ∀ k t,
    <[key := with_text text items tracker]> (turns c) !! k = Some t →
    ∃ t0, turns c !! k = Some t0 ∧ promise t = promise t0 ∧
          turnId t = turnId t0 ∧ timeout t = timeout t0) as Htext.
  { intros key tracker text items Hk k t. rewrite lookup_insert. case_decide as E.
    - subst k. intros [= <-]. by exists tracker.
    - intros ?. by exists t. }
  repeat case_match; cbn [snd]; (split; [done|]);
    try (split; [done|]; intros kk tt Htt; by exists tt);
    match goal with
    | H : map_get _ _ = Some _ |- _ => apply map_get_Some in H as [_ Hk]
    end; simpl.
  all: try (split; [done|]; by apply Htext).
  all: split;
    [intros hh xx; try (intros [_ ?]%lookup_delete_Some); done
    |intros kk tt [_ ?]%lookup_delete_Some; by exists tt].
Qed.

Lemma handleNotification_calls method params c p :
  let c' := (handleNotification method params c).2 in
  turn_calls p (calls c') = turn_calls p (calls c) ∨
  ∃ k t r, method = Some (JStr "turn/completed") ∧
           get "id" (get "turn" params) = Some (JStr k) ∧
           turns c !! k = Some t ∧ promise t = p ∧
           turn_calls p (calls c') = turn_calls p (calls c) ++ [Fulfilled r].
Proof.
  cbv zeta. unfold handleNotification.
  repeat case_match; cbn [snd]; try (by left);
    match goal with
    | H : is_str "turn/completed" _ = true |- _ => apply is_str_true in H as ->
    end;
    match goal with
    | H : map_get _ _ = Some _ |- _ => apply map_get_Some in H as [Hid Hk]
    end;
    match goal with
    | |- context [TurnCall (promise ?t) (Fulfilled ?r)] =>
        destruct (decide (promise t = p)) as [<-|Hne];
          [right; eexists _, t, r; split_and!; [done..|]; simpl;
             by rewrite turn_calls_same
          |left; simpl; by rewrite turn_calls_other]
    end.
Qed.

Lemma handleMessage_registry m c :
  let c' := (handleMessage m c).2 in
  nextTurn c' = nextTurn c ∧
  (∀ h x, timers c' !! h = Some x → timers c !! h = Some x) ∧
  (∀ k t, turns c' !! k = Some t →
     ∃ t0, turns c !! k = Some t0 ∧ promise t = promise t0 ∧
           turnId t = turnId t0 ∧ timeout t = timeout t0).
Proof.
  cbv zeta. unfold handleMessage.
  assert (∀ c0 : client, nextTurn c0 = nextTurn c → timers c0 = timers c → turns c0 = turns c →
    nextTurn c0 = nextTurn c ∧
    (∀ h x, timers c0 !! h = Some x → timers c !! h = Some x) ∧
    (∀ k t, turns c0 !! k = Some t →
       ∃ t0, turns c !! k = Some t0 ∧ promise t = promise t0 ∧
             turnId t = turnId t0 ∧ timeout t = timeout t0)) as Hsame.
  { intros c0 -> -> ->. split_and!; [done..|]. intros k t ?. by exists t. }
  destruct (isRpcResponse m) as [[]|?|]; try (by apply Hsame).
  - repeat case_match; by apply Hsame.
  - destruct (isRpcRequest m) as [[]|?|]; try (by apply Hsame).
    + destruct (handleServerRequest_tables m c) as (_ & _ & _ & ? & ? & ?).
      destruct (handleServerRequest m c) as [[] ?]; by apply Hsame.
    + destruct (isRpcNotification m) as [[]|?|]; try (by apply Hsame).
      apply handleNotification_registry.
Qed.

Lemma handleMessage_calls m c p :
  let c' := (handleMessage m c).2 in
  turn_calls p (calls c') = turn_calls p (calls c) ∨
  ∃ k t r, isRpcNotification m = Ret true ∧
           get "method" (Some m) = Some (JStr "turn/completed") ∧
           get "id" (get "turn" (get "params" (Some m))) = Some (JStr k) ∧
           turns c !! k = Some t ∧ promise t = p ∧
           turn_calls p (calls c') = turn_calls p (calls c) ++ [Fulfilled r].
Proof.
  cbv zeta. unfold handleMessage.
  destruct (isRpcResponse m) as [[]|?|]; try (by left).
  - left. repeat case_match; cbn [snd]; try done; simpl; apply turn_calls_request.
  - destruct (isRpcRequest m) as [[]|?|]; try (by left).
    + left. destruct (handleServerRequest_tables m c) as (_ & _ & Hc & _).
      destruct (handleServerRequest m c) as [[] ?]; simpl in *; by rewrite ?Hc.
    + destruct (isRpcNotification m) as [[]|?|]; try (by left).
      destruct (handleNotification_calls (get "method" (Some m)) (get "params" (Some m)) c p)
        as [?|(k & t & r & ? & ? & ? & ? & ?)]; [by left|].
      right. by exists k, t, r.
Qed.

Lemma step_registry e c c' :
  wf c → step e c = Some c' →
  nextTurn c ≤ nextTurn c' ∧
  (∀ h x, timers c' !! h = Some x →
     timers c !! h = Some x ∨ (h = nextTurn c ∧ is_resume e = true)) ∧
  (∀ k t, turns c' !! k = Some t →
     (∃ t0, turns c !! k = Some t0 ∧ promise t = promise t0 ∧
            turnId t = turnId t0 ∧ timeout t = timeout t0) ∨
     (promise t = nextTurn c ∧ is_resume e = true)).
Proof.
  intros Hwf.
  assert (∀ c0 : client, nextTurn c0 = nextTurn c → timers c0 = timers c → turns c0 = turns c →
    nextTurn c ≤ nextTurn c0 ∧
    (∀ h x, timers c0 !! h = Some x →
       timers c !! h = Some x ∨ (h = nextTurn c ∧ is_resume e = true)) ∧
    (∀ k t, turns c0 !! k = Some t →
       (∃ t0, turns c !! k = Some t0 ∧ promise t = promise t0 ∧
              turnId t = turnId t0 ∧ timeout t = timeout t0) ∨
       (promise t = nextTurn c ∧ is_resume e = true))) as Hsame.
  { intros c0 -> -> ->. split_and!; [done|by left|]. intros k t ?. left. by exists t. }
  destruct e as [b| |method params|params|params response|m|t|method params];
    cbn [step is_resume].
  - intros [= <-]. by apply Hsame.
  - intros [= <-]. by apply Hsame.
  - intros [= <-].
    destruct (sendRequest_effect method params c) as (_ & _ & _ & ? & ? & ? & _).
    by apply Hsame.
  - intros [= <-]. unfold runTurn_request.
    match goal with
    | |- context [sendRequest ?a ?b c] =>
        destruct (sendRequest_effect a b c) as (_ & _ & _ & ? & ? & ? & _)
    end. by apply Hsame.
  - unfold runTurn_resume. destruct (negb _); [intros [= <-]; by apply Hsame|].
    destruct (get "id" (get "turn" response)) as [[| | |k'| |]|]; try done.
    unfold trackTurn. intros [= <-]. simpl. split_and!.
    + first [lia | case_match; simpl; lia].
    + intros h x. case_match; simpl; [|by left].
      rewrite lookup_insert. case_decide; [by right|by left].
    + intros k t. replace (turns _) with (turns c) by (by case_match).
      rewrite lookup_insert. case_decide.
      * intros [= <-]. by right.
      * intros ?. left. by exists t.
  - intros Hstep. destruct (handleMessage_registry m c) as (Hn & Ht & Hk).
    assert (c' = (handleMessage m c).2) as ->
      by (destruct (handleMessage m c) as [[] ?]; by simplify_eq).
    split_and!; [lia|by left; apply Ht|by left; apply Hk].
  - intros [= <-]. unfold fireTimer. destruct (timers c !! t) as [[k ms]|]; [|by apply Hsame].
    simpl. split_and!; [done| |].
    + intros h x [_ ?]%lookup_delete_Some. by left.
    + intros k' t' [_ ?]%lookup_delete_Some. left. by exists t'.
  - intros [= <-]. destruct (sendNotification_child method params c) as [x ->].
    by apply Hsame.
Qed.

Lemma step_turn_calls e c c' p :
  wf c → step e c = Some c' →
  turn_calls p (calls c') = turn_calls p (calls c) ∨
  (turn_calls p (calls c) = [] ∧
   ((∃ r k t, turn_calls p (calls c') = [Fulfilled r] ∧
              turns c !! k = Some t ∧ promise t = p ∧ completes k e = true) ∨
    (turn_calls p (calls c') = [Rejected (Error "codex turn timeout")] ∧
     is_Some (timers c !! p) ∧ e = Timer p))).
Proof.
  intros [Hr Hg].
  destruct e as [b| |method params|params|params response|m|t|method params]; cbn [step].
  - intros [= <-]. by left.
  - intros [= <-]. by left.
  - intros [= <-]. left.
    by destruct (sendRequest_effect method params c) as (_ & _ & _ & _ & _ & _ & _ & _ & _ & ->).
  - intros [= <-]. left. unfold runTurn_request.
    match goal with
    | |- context [sendRequest ?a ?b c] =>
        by destruct (sendRequest_effect a b c) as (_ & _ & _ & _ & _ & _ & _ & _ & _ & ->)
    end.
  - intros Hstep. left.
    destruct (runTurn_resume_requests params response c) as (_ & _ & Hc & _).
    destruct (runTurn_resume params response c) as [[] ?]; simplify_eq; simpl in *;
      by rewrite Hc.
  - intros Hstep.
    assert (c' = (handleMessage m c).2) as ->
      by (destruct (handleMessage m c) as [[] ?]; by simplify_eq).
    destruct (handleMessage_calls m c p) as [?|(k & t & r & Hn & Hm & Hid & Hk & Hp & Hc)];
      [by left|right].
    destruct (wf_turns _ Hg _ _ Hk) as (_ & _ & _ & Hnone & _). rewrite Hp in Hnone.
    split; [done|]. left. exists r, k, t. rewrite Hc, Hnone. split_and!; [done..|].
    unfold completes, holds. rewrite Hn, Hm, Hid. by rewrite !(proj2 (is_str_true _ _)).
  - intros [= <-]. unfold fireTimer. destruct (timers c !! t) as [[k ms]|] eqn:E; [|by left].
    simpl. destruct (decide (t = p)) as [->|Hne].
    + right. destruct (wf_timers _ Hg _ _ _ E) as (_ & Hnone & _).
      split; [done|]. right. rewrite turn_calls_same, Hnone. by split_and!.
    + left. by rewrite turn_calls_other.
  - intros [= <-]. left. by destruct (sendNotification_child method params c) as [x ->].
Qed.

(** ** Turn promises *)

Lemma run_turn_calls_once es c c' :
  wf c → run es c = Some c' →
  (∀ p, length (turn_calls p (calls c)) ≤ 1) →
  ∀ p, length (turn_calls p (calls c')) ≤ 1.
Proof.
  revert c. induction es as [|e es IH]; intros c Hwf; simpl.
  - by intros [= <-].
  - destruct (step e c) as [c1|] eqn:E; [|done]. intros Hrun Hc.
    apply (IH c1); [by eapply wf_step|done|]. intros p.
    destruct (step_turn_calls e c c1 p Hwf E)
      as [->|(_ & [(r & k & t & -> & _)|(-> & _)])]; simpl; [done|lia..].
Qed.

(** X1. In every reachable client each turn promise has had at most one call
    of its [resolve] or [reject]: [turn/completed] and the timeout never both
    settle the same [runTurn] call, and neither settles it twice. *)
Theorem turn_settled_at_most_once c p :
  reachable c → length (turn_calls p (calls c)) ≤ 1.
Proof.
  intros (o & es & Hrun).
  apply (run_turn_calls_once es (new_client o) c (wf_new o) Hrun). intros q. simpl. lia.
Qed.

Lemma turn_settled_at_most_once_witness :
  turn_calls 0 (calls sample_client_timed_out) = [Rejected (Error "codex turn timeout")] ∧
  length (turn_calls 0 (calls sample_client_timed_out)) ≤ 1.
Proof.
  split; [vm_compute; reflexivity|].
  apply (turn_settled_at_most_once sample_client_timed_out 0).
  apply (reachable_run
           [Timer 0;
            Line (notification "turn/completed"
                    [("turn", JObj [("id", JStr "u1"); ("status", JStr "completed")])])]
           sample_client _ sample_reachable).
  vm_compute. reflexivity.
Defined.

(** A promise of [trackTurn] without armed timer: no timer is ever armed for
    it later, and its tracker can only be found under its own turn id. *)
Lemma step_untimed e c c' p k :
  wf c → step e c = Some c' →
  p < nextTurn c → timers c !! p = None →
  (∀ k' t, turns c !! k' = Some t → promise t = p → k' = k) →
  p < nextTurn c' ∧ timers c' !! p = None ∧
  (∀ k' t, turns c' !! k' = Some t → promise t = p → k' = k).
Proof.
  intros Hwf Hstep Hp Ht Hk.
  destruct (step_registry e c c' Hwf Hstep) as (Hn & Htm & Htr).
  split_and!; [lia| |].
  - destruct (timers c' !! p) as [x|] eqn:E; [|done].
    destruct (Htm p x E) as [?|[? _]]; [congruence|lia].
  - intros k' t Hk' Hpt. destruct (Htr k' t Hk') as [(t0 & Ht0 & Hpt0 & _)|[? _]]; [|lia].
    apply (Hk k' t0 Ht0). congruence.
Qed.

Lemma run_untimed es c c' p k :
  wf c → run es c = Some c' →
  p < nextTurn c → timers c !! p = None →
  (∀ k' t, turns c !! k' = Some t → promise t = p → k' = k) →
  turn_calls p (calls c) = [] →
  only_fulfilled (turn_calls p (calls c')) ∧
  (existsb (completes k) es = false → turn_calls p (calls c') = []).
Proof.
  revert c. induction es as [|e es IH]; intros c Hwf; simpl.
  - intros [= <-] _ _ _ ->. split; [constructor|done].
  - destruct (step e c) as [c1|] eqn:E; [|done]. intros Hrun Hp Ht Hk Hnone.
    destruct (step_untimed e c c1 p k Hwf E Hp Ht Hk) as (Hp1 & Ht1 & Hk1).
    pose proof (wf_step e c c1 E Hwf) as Hwf1.
    destruct (step_turn_calls e c c1 p Hwf E)
      as [Hsame|(_ & [(r & k' & t & Hc1 & Hk' & Hpt & Hcomp)|(_ & [x Hx] & _)])];
      [| |congruence].
    + rewrite Hnone in Hsame.
      destruct (IH c1 Hwf1 Hrun Hp1 Ht1 Hk1 Hsame) as [H1 H2].
      split; [done|]. intros [_ ?]%orb_false_elim. by apply H2.
    + rewrite (Hk k' t Hk' Hpt) in Hcomp. rewrite Hcomp. simpl. split; [|done].
      assert (∀ es c0 c2, wf c0 → run es c0 = Some c2 →
                length (turn_calls p (calls c0)) = 1 →
                turn_calls p (calls c2) = turn_calls p (calls c0)) as Hfix.
      { clear. induction es as [|e es IH]; intros c0 c2 Hwf; simpl.
        - by intros [= <-].
        - destruct (step e c0) as [c1|] eqn:E; [|done]. intros Hrun Hlen.
          destruct (step_turn_calls e c0 c1 p Hwf E) as [Hs|[Hs _]].
          + rewrite <- Hs. apply IH; [by eapply wf_step|done|by rewrite Hs].
          + rewrite Hs in Hlen. done. }
      rewrite (Hfix es c1 c' Hwf1 Hrun) by (by rewrite Hc1). rewrite Hc1.
      repeat constructor. by exists r.
Qed.

(** X2. A [runTurn] call that resumes without positive timeout ([timeoutMs]
    absent, zero or negative) arms no timer.  Its promise is then never
    rejected, whatever happens later, and it stays pending for as long as no
    [turn/completed] for its turn id is handled: nothing else in the client
    ever ends the wait. *)
Theorem untimed_turn_never_rejected c params response k :
  reachable c →
  get "id" (get "turn" response) = Some (JStr k) → k ≠ "" →
  (∀ ms, Params.timeoutMs params = Some ms → (ms ≤ 0)%Z) →
  ∃ p c0,
    runTurn_resume params response c = (Ret p, c0) ∧
    timers c0 !! p = None ∧
    ∀ es c1, run es c0 = Some c1 →
      timers c1 !! p = None ∧
      only_fulfilled (turn_calls p (calls c1)) ∧
      (existsb (completes k) es = false → turn_promise p c1 = None).
Proof.
  intros Hreach Hid Hk Hms. pose proof (reachable_wf c Hreach) as Hwf.
  pose proof Hwf as [_ Hg].
  exists (nextTurn c), (trackTurn (Params.threadId params) k (Params.timeoutMs params) c).2.
  pose proof (wf_trackTurn (Params.threadId params) k (Params.timeoutMs params) c Hk Hwf)
    as Hwf0.
  assert (match Params.timeoutMs params with
          | Some ms => bool_decide (ms ≠ 0 ∧ 0 < ms)%Z
          | None => false
          end = false) as Harmed.
  { destruct (Params.timeoutMs params) as [ms|]; [|done].
    apply bool_decide_eq_false. specialize (Hms ms eq_refl). lia. }
  set (c0 := (trackTurn _ _ _ c).2) in *.
  assert (nextTurn c < nextTurn c0) as Hlt
    by (subst c0; unfold trackTurn; rewrite Harmed; simpl; lia).
  assert (timers c0 !! nextTurn c = None) as Htimer.
  { subst c0. unfold trackTurn. rewrite Harmed. simpl. by apply timers_fresh. }
  assert (∀ k' t, turns c0 !! k' = Some t → promise t = nextTurn c → k' = k) as Hkey.
  { subst c0. unfold trackTurn. rewrite Harmed. simpl. intros k' t.
    rewrite lookup_insert. case_decide; [done|]. intros Ht Hp.
    destruct (wf_turns _ Hg _ _ Ht) as (_ & _ & ? & _). lia. }
  assert (turn_calls (nextTurn c) (calls c0) = []) as Hnone.
  { subst c0. unfold trackTurn. rewrite Harmed. simpl. by apply turn_calls_fresh. }
  split_and!.
  - unfold runTurn_resume. rewrite Hid, (proj2 (truthy_str k) Hk). reflexivity.
  - done.
  - intros es c1 Hrun.
    destruct (run_untimed es c0 c1 _ k Hwf0 Hrun Hlt Htimer Hkey Hnone) as [Hok Hpend].
    split_and!; [|done|].
    + clear Hok Hpend. revert Hrun Hlt Htimer Hkey Hwf0. generalize c0. clear.
      induction es as [|e es IH]; intros c0; simpl.
      * by intros [= <-].
      * destruct (step e c0) as [c2|] eqn:E; [|done]. intros Hrun Hlt Ht Hkey Hwf0.
        destruct (step_untimed e c0 c2 _ k Hwf0 E Hlt Ht Hkey) as (? & ? & ?).
        apply (IH c2); [done..|by eapply wf_step].
    + intros Hc. unfold turn_promise. by rewrite Hpend.
Qed.



(** ** The registry and [hasPendingTurns] *)

Lemma hasPendingTurns_false c : hasPendingTurns c = false ↔ turns c = ∅.
Proof.
  unfold hasPendingTurns. rewrite bool_decide_eq_false, <- map_size_empty_iff. lia.
Qed.

(** X3. Trackers enter the registry only where a [runTurn] call resumes:
    over any history without such a resumption (requests sent, among them
    [turn/start] itself, Responses, server requests, notifications, timers,
    the child stopped or spawned) the turn ids of the registry can only
    shrink, so [hasPendingTurns], once false, stays false.  A [turn/start]
    that was sent and not yet answered does not count as a pending turn. *)
Theorem registry_grows_only_by_runTurn c es c' :
  reachable c → run es c = Some c' → existsb is_resume es = false →
  dom (turns c') ⊆ dom (turns c) ∧
  (hasPendingTurns c = false → hasPendingTurns c' = false).
Proof.
  intros Hwf%reachable_wf Hrun Hes.
  assert (dom (turns c') ⊆ dom (turns c)) as Hdom.
  { revert c Hwf Hrun Hes. induction es as [|e es IH]; intros c Hwf; simpl.
    - by intros [= <-].
    - destruct (step e c) as [c1|] eqn:E; [|done].
      intros Hrun [He Hes]%orb_false_elim.
      transitivity (dom (turns c1)); [apply (IH c1); [by eapply wf_step|done..]|].
      destruct (step_registry e c c1 Hwf E) as (_ & _ & Htr).
      intros k [t Ht]%elem_of_dom.
      destruct (Htr k t Ht) as [(t0 & Ht0 & _)|[_ ?]]; [|congruence].
      apply elem_of_dom. by exists t0. }
  split; [done|]. rewrite !hasPendingTurns_false. intros Hc. rewrite Hc in Hdom.
  apply dom_empty_iff_L. set_solver.
Qed.



Lemma run_app es tl c :
  run (es ++ tl) c = match run es c with Some c' => run tl c' | None => None end.
Proof.
  revert c. induction es as [|e es IH]; intros c; simpl; [done|].
  destruct (step e c); [apply IH|done].
Qed.

(** X4. A notification that names a turn id without tracker is dropped: a
    history of such lines leaves the client exactly as it was.  The tracker is
    registered only when the [runTurn] call resumes, so whatever deltas or
    [turn/completed] were handled for the turn before that moment are lost:
    the call resumes as if they had never arrived, with an empty tracker and
    a pending promise. *)
Theorem early_notifications_lost c k lines params response :
  turns c !! k = None → Forall (notifies_turn k) lines →
  run (Line <$> lines) c = Some c ∧
  run ((Line <$> lines) ++ [ResumeTurn params response]) c =
    run [ResumeTurn params response] c.
Proof.
  intros Hk Hlines.
  assert (run (Line <$> lines) c = Some c) as Hrun.
  { induction Hlines as [|m lines Hfirst _ IH]; [done|].
    destruct Hfirst as (method & [Hn Hm] & Hnames). rewrite fmap_cons. cbn [run step].
    rewrite (handleMessage_notification m c Hn), Hm.
    by rewrite (handleNotification_no_tracker c k method _ Hk Hnames). }
  split; [done|]. by rewrite run_app, Hrun.
Qed.



(** ** Request ids *)

Lemma run_nextId es c c' :
  wf c → run es c = Some c' → (nextId c ≤ nextId c')%Z.
Proof.
  revert c. induction es as [|e es IH]; intros c Hwf; simpl.
  - by intros [= <-].
  - destruct (step e c) as [c1|] eqn:E; [|done]. intros Hrun.
    destruct (step_request e c c1 (nextId c - 1) Hwf ltac:(lia) E) as [? _].
    pose proof (IH c1 (wf_step e c c1 E Hwf) Hrun). lia.
Qed.

(** X5. While the request counter has not passed 2^53, request ids are not
    reused by a client: a request sent after any history of events, the
    child being stopped and spawned again included, gets an id strictly
    greater than every request sent before, and so a key in the pending
    table that differs from theirs.  (The counter is a double: from 2^53 on
    [nextId++] leaves it as it is, and the bound keeps the statement to the
    states on which the counter of the code is the one modelled here.) *)
Theorem request_ids_increase c method1 params1 es c' method2 params2 :
  reachable c →
  run es (sendRequest method1 params1 c).2 = Some c' →
  (nextId c' ≤ 2 ^ 53)%Z →
  ((sendRequest method1 params1 c).1 < (sendRequest method2 params2 c').1)%Z ∧
  pretty (sendRequest method1 params1 c).1 ≠@{string} pretty (sendRequest method2 params2 c').1.
Proof.
  intros Hwf%reachable_wf Hrun _.
  destruct (sendRequest_effect method1 params1 c) as (-> & Hn & _).
  destruct (sendRequest_effect method2 params2 c') as (-> & _).
  pose proof (run_nextId es _ c' (wf_sendRequest method1 params1 c Hwf) Hrun) as Hle.
  rewrite Hn in Hle. split; [lia|]. intros ?%(inj pretty). lia.
Qed.



(** The ids of the pending table are ids the client has given out: the
    counter starts at 1. *)
Lemma pending_ids_allocated c k id :
  reachable c → pending c !! k = Some id → k = pretty id ∧ (1 ≤ id < nextId c)%Z.
Proof.
  intros Hreach Hp. pose proof (reachable_wf c Hreach) as [Hr _].
  destruct (wf_pending _ Hr _ _ Hp) as [-> Hlt]. split; [done|]. split; [|done].
  destruct (Z.le_gt_cases 1 id) as [|Hneg]; [done|].
  destruct Hreach as (o & es & Hrun).
  destruct (run_request_gone es (new_client o) c id (wf_new o)) as [Hgone _];
    [simpl; lia|done|done|].
  by rewrite Hp in Hgone.
Qed.

(** X6. A Response is matched by its id alone, and only against ids the
    client has given out, which are the numbers from 1 to below the
    counter: when the id, normalized, is not the decimal string of one of
    them (an id that is null, a boolean, an array or an object; a string
    that is not such a numeral; zero or a negative number; a number not yet
    allocated), the Response is dropped and the client is unchanged. *)
Theorem unknown_id_discarded c m :
  reachable c → isRpcResponse m = Ret true →
  (∀ n, (1 ≤ n < nextId c)%Z → normalizeId (get "id" (Some m)) ≠ Some (JStr (pretty n))) →
  handleMessage m c = (Ret tt, c).
Proof.
  intros Hreach Hm Hid. rewrite (handleMessage_response m c Hm).
  destruct (map_get _ (pending c)) as [[k id]|] eqn:E; [|done].
  apply map_get_Some in E as [Hk Hp].
  destruct (pending_ids_allocated c k id Hreach Hp) as [-> Hrange].
  by destruct (Hid id Hrange).
Qed.



Lemma untimed_turn_never_rejected_witness :
  ∃ c1,
    run [Timer 0; Line sample_delta]
      (runTurn_resume sample_params_untimed (Some (JObj [("turn", JObj [("id", JStr "u1")])]))
         (new_client sample_opts)).2 = Some c1 ∧
    timers c1 !! 0 = None ∧ turn_promise 0 c1 = None.
Proof.
  destruct (untimed_turn_never_rejected (new_client sample_opts) sample_params_untimed
              (Some (JObj [("turn", JObj [("id", JStr "u1")])])) "u1")
    as (p & c0 & Hres & _ & H); [|reflexivity|discriminate|discriminate|].
  { exists sample_opts, []. reflexivity. }
  injection Hres as <- <-.
  destruct (H [Timer 0; Line sample_delta] _ eq_refl) as (Ht & _ & Hp).
  eexists. split; [reflexivity|]. split; [exact Ht|]. apply Hp. reflexivity.
Defined.

Lemma registry_grows_only_by_runTurn_witness :
  dom (turns (default sample_client
                (run [RunTurn sample_params; Line sample_delta; Timer 0; Stop] sample_client)))
  ⊆ dom (turns sample_client).
Proof.
  destruct (run [RunTurn sample_params; Line sample_delta; Timer 0; Stop] sample_client)
    as [c'|] eqn:E; [|done].
  exact (proj1 (registry_grows_only_by_runTurn sample_client
           [RunTurn sample_params; Line sample_delta; Timer 0; Stop] c'
           sample_reachable E eq_refl)).
Defined.

Lemma early_notifications_lost_witness :
  run [Line (notification "turn/completed"
               [("turn", JObj [("id", JStr "u9"); ("status", JStr "completed")])]);
       ResumeTurn sample_params_untimed (Some (JObj [("turn", JObj [("id", JStr "u9")])]))]
      sample_client =
  run [ResumeTurn sample_params_untimed (Some (JObj [("turn", JObj [("id", JStr "u9")])]))]
      sample_client.
Proof.
  refine (proj2 (early_notifications_lost sample_client "u9"
    [notification "turn/completed"
       [("turn", JObj [("id", JStr "u9"); ("status", JStr "completed")])]]
    sample_params_untimed (Some (JObj [("turn", JObj [("id", JStr "u9")])])) _ _)).
  - reflexivity.
  - constructor; [|constructor]. exists "turn/completed". split; [by split|].
    left. by split.
Defined.

Lemma request_ids_increase_witness :
  ((sendRequest "thread/start" None sample_client).1 <
   (sendRequest "thread/start" None
      (set_child (Some {| stdin := Some [] |})
         (set_child None (sendRequest "thread/start" None sample_client).2))).1)%Z.
Proof.
  refine (proj1 (request_ids_increase sample_client "thread/start" None [Stop; Spawn true] _
                   "thread/start" None sample_reachable _ _)).
  - reflexivity.
  - vm_compute. discriminate.
Defined.

Lemma unknown_id_discarded_witness :
  handleMessage (JObj [("id", JNum 0); ("result", JStr "ok")])
    (sendRequest "thread/start" None sample_client).2 =
  (Ret tt, (sendRequest "thread/start" None sample_client).2).
Proof.
  apply unknown_id_discarded.
  - eapply reachable_run; [exact sample_reachable|].
    instantiate (1 := [SendRequest "thread/start" None]). reflexivity.
  - reflexivity.
  - intros n Hn [= H%(inj pretty)]. lia.
Defined.

(** ** What the client writes *)

Lemma classes_fields fs :
  classes (JObj fs) =
    if bool_decide (is_Some (field "id" fs)) then
      if bool_decide (is_Some (field "result" fs)) || bool_decide (is_Some (field "error" fs))
      then [IsResponse]
      else if bool_decide (is_Some (field "method" fs)) then [IsRequest] else []
    else if bool_decide (is_Some (field "method" fs)) then [IsNotification] else [].
Proof. apply classes_object. Qed.

(** X7. What [sendRequest] and [sendNotification] write to the open input
    stream is one line each, appended after the lines written before, and the
    client's own classification reads it back as what was meant: the line of
    [sendRequest] is a Request with the freshly allocated id, the method and
    the parameters (left out when undefined); the line of [sendNotification]
    is a Notification with the method and the parameters, and has no id. *)
Theorem outbound_lines_classified c lines method params :
  child c = Some {| stdin := Some lines |} →
  (∃ m, child (sendRequest method params c).2 = Some {| stdin := Some (lines ++ [m]) |} ∧
        classes m = [IsRequest] ∧
        get "id" (Some m) = Some (JNum (nextId c)) ∧
        get "method" (Some m) = Some (JStr method) ∧
        get "params" (Some m) = params) ∧
  (∃ m, sendNotification method params c =
          (Ret tt, set_child (Some {| stdin := Some (lines ++ [m]) |}) c) ∧
        classes m = [IsNotification] ∧
        get "id" (Some m) = None ∧
        get "method" (Some m) = Some (JStr method) ∧
        get "params" (Some m) = params).
Proof.
  intros Hc. split.
  - unfold sendRequest, writeMessage. cbn [child set_pending set_nextId]. rewrite Hc.
    eexists. split; [reflexivity|]. destruct params; by split_and!.
  - unfold sendNotification, writeMessage. rewrite Hc.
    eexists. split; [reflexivity|]. destruct params; by split_and!.
Qed.

Lemma outbound_lines_classified_witness :
  ∃ m, sendNotification "initialized" None
         (set_child (Some {| stdin := Some [] |}) (new_client sample_opts)) =
         (Ret tt, set_child (Some {| stdin := Some ([] ++ [m]) |})
                    (set_child (Some {| stdin := Some [] |}) (new_client sample_opts))) ∧
       classes m = [IsNotification].
Proof.
  destruct (outbound_lines_classified
              (set_child (Some {| stdin := Some [] |}) (new_client sample_opts))
              [] "initialized" None eq_refl) as [_ (m & H & Hc & _)].
  exists m. split; [exact H|exact Hc].
Defined.

Lemma handleServerRequest_reply c request method lines :
  child c = Some {| stdin := Some lines |} →
  get "method" (Some request) = Some (JStr method) →
  ∃ key v,
    (key = "result" ∨ key = "error") ∧
    handleServerRequest request c =
      (Ret tt,
       set_child (Some {| stdin := Some (lines ++
         [JObj (mkobj [("jsonrpc", Some (JStr "2.0")); ("id", get "id" (Some request));
                       (key, Some v)])]) |}) c).
Proof.
  intros Hc Hm. unfold handleServerRequest, sendResponse, sendError, writeMessage.
  rewrite Hm, Hc. repeat case_match; eexists _, _; (split; [|reflexivity]); auto.
Qed.

(** X8. An inbound Request with a string method, handled while the input
    stream is open, is answered by exactly one line, and that line is a
    Response by the client's own classification: it carries the id of the
    request unchanged, exactly one of [result] and [error], and no method.
    [handleMessage] returns normally. *)
Theorem replies_are_responses c request method lines :
  child c = Some {| stdin := Some lines |} →
  isRpcRequest request = Ret true →
  get "method" (Some request) = Some (JStr method) →
  ∃ reply,
    handleMessage request c =
      (Ret tt, set_child (Some {| stdin := Some (lines ++ [reply]) |}) c) ∧
    classes reply = [IsResponse] ∧
    get "id" (Some reply) = get "id" (Some request) ∧
    get "method" (Some reply) = None ∧
    (is_Some (get "result" (Some reply)) ↔ ¬ is_Some (get "error" (Some reply))).
Proof.
  intros Hc Hreq Hm.
  destruct (handleServerRequest_reply c request method lines Hc Hm)
    as (key & v & Hkey & Hh).
  assert (∃ fs i, request = JObj fs ∧ field "id" fs = Some i ∧
                  isRpcResponse request = Ret false) as (fs & i & -> & Hi & Hresp).
  { destruct request; try done. exists fields. revert Hreq.
    unfold isRpcRequest, isRpcResponse, js_in.
    destruct (field "id" fields) as [i|]; [|done]. exists i.
    rewrite (bool_decide_eq_true_2 (is_Some (Some i))) by eauto. simpl.
    destruct (bool_decide (is_Some (field "method" fields))); [|done]. simpl.
    destruct (bool_decide (is_Some (field "result" fields))); [done|]. simpl.
    by destruct (bool_decide (is_Some (field "error" fields))). }
  eexists. split.
  - unfold handleMessage. rewrite Hresp, Hreq, Hh. reflexivity.
  - simpl. rewrite Hi.
    destruct Hkey as [-> | ->]; simpl; (split_and!; [done..|]);
      rewrite !is_Some_alt; tauto.
Qed.

Lemma replies_are_responses_witness :
  ∃ reply lines,
    handleMessage (encode (Request (IdStr "r1") "item/tool/call" None)) sample_client =
      (Ret tt, set_child (Some {| stdin := Some (lines ++ [reply]) |}) sample_client) ∧
    classes reply = [IsResponse].
Proof.
  destruct (replies_are_responses sample_client
              (encode (Request (IdStr "r1") "item/tool/call" None)) "item/tool/call"
              _ eq_refl eq_refl eq_refl) as (reply & H & Hc & _).
  eexists reply, _. split; [exact H|exact Hc].
Defined.

(** ** A request and its Response *)

Lemma request_answered c method params lines rid result err :
  reachable c → child c = Some {| stdin := Some lines |} →
  rid = IdNum (nextId c) ∨ rid = IdStr (pretty (nextId c)) →
  is_Some result ∨ is_Some err →
  ∃ c2,
    run [SendRequest method params; Line (encode (Response rid result err))] c = Some c2 ∧
    pending c2 = pending c ∧
    request_promise (nextId c) c2 =
      Some (match err with
            | Some e => Rejected (Error (message e))
            | None => Fulfilled result
            end) ∧
    turns c2 = turns c ∧ timers c2 = timers c.
Proof.
  intros Hwf%reachable_wf Hc Hrid Hsome.
  destruct (sendRequest_effect method params c)
    as (_ & Hn & Hp & Ht & Htm & _ & Hok & _ & _ & _).
  set (c1 := (sendRequest method params c).2) in *.
  assert (request_calls (nextId c) (calls c1) = []) as Hcalls.
  { rewrite Hok by eauto. apply request_calls_fresh; [apply Hwf|lia]. }
  assert (pending c !! pretty (nextId c) = None) as Hfresh.
  { destruct (pending c !! pretty (nextId c)) as [id0|] eqn:E; [|done].
    destruct (wf_pending _ (proj1 Hwf) _ _ E) as [->%(inj pretty) ?]. lia. }
  assert (isRpcResponse (encode (Response rid result err)) = Ret true) as Hresp.
  { destruct Hsome as [[r ->]|[e ->]]; [by destruct err|by destruct result]. }
  assert (normalizeId (get "id" (Some (encode (Response rid result err)))) =
          Some (JStr (pretty (nextId c)))) as Hkey.
  { destruct Hrid as [-> | ->]; by destruct result, err. }
  cbn [run step]. fold c1.
  rewrite (handleMessage_response _ c1 Hresp), Hkey, map_get_str, Hp, lookup_insert_eq.
  cbn [fmap option_fmap option_map].
  assert (delete (pretty (nextId c)) (<[pretty (nextId c) := nextId c]> (pending c))
          = pending c) as Hdel by (by apply delete_insert_id).
  destruct err as [e|].
  - assert (truthy (get "error" (Some (encode (Response rid result (Some e))))) = true) as ->
      by (by destruct result).
    assert (toError (encode (Response rid result (Some e))) = Some (Error (message e))) as ->
      by (by destruct result).
    eexists. split; [reflexivity|]. simpl. split_and!; try done.
    unfold request_promise. simpl. by rewrite request_calls_same, Hcalls.
  - destruct Hsome as [[r ->]|[? [=]]].
    eexists. split; [reflexivity|]. simpl. split_and!; try done.
    unfold request_promise. simpl. by rewrite request_calls_same, Hcalls.
Qed.

(** X9. Round trip of a request.  A reachable client with open input stream
    sends a request; the child answers with a typed Response that echoes the
    id, as the number written or as its decimal string.  Then the pending
    table is again exactly what it was before the request, and the promise
    of the request is settled by that Response: rejected with the message of
    the error when there is one (also when a result comes with it),
    fulfilled with the result otherwise. *)
Theorem request_round_trip c method params lines rid result err :
  reachable c → child c = Some {| stdin := Some lines |} →
  rid = IdNum (nextId c) ∨ rid = IdStr (pretty (nextId c)) →
  is_Some result ∨ is_Some err →
  ∃ c2,
    run [SendRequest method params; Line (encode (Response rid result err))] c = Some c2 ∧
    pending c2 = pending c ∧
    request_promise (nextId c) c2 =
      Some (match err with
            | Some e => Rejected (Error (message e))
            | None => Fulfilled result
            end) ∧
    turns c2 = turns c ∧ timers c2 = timers c.
Proof. apply request_answered. Qed.

Lemma request_round_trip_witness :
  ∃ c2,
    run [SendRequest "thread/start" None;
         Line (encode (Response (IdStr "3") (Some (JStr "ok")) None))] sample_client
      = Some c2 ∧
    pending c2 = pending sample_client ∧
    request_promise 3 c2 = Some (Fulfilled (Some (JStr "ok"))).
Proof.
  destruct (request_round_trip sample_client "thread/start" None _ (IdStr "3")
              (Some (JStr "ok")) None sample_reachable eq_refl (or_intror eq_refl)
              (or_introl (ex_intro _ (JStr "ok") eq_refl)))
    as (c2 & H1 & H2 & H3 & _).
  exists c2. split; [exact H1|]. split; [exact H2|exact H3].
Defined.

(** ** The line listener *)

Lemma handleNotification_no_exn method params c e c' :
  handleNotification method params c ≠ (Exn e, c').
Proof. unfold handleNotification. repeat case_match; done. Qed.

Lemma handleMessage_exn m c e c' :
  handleMessage m c = (Exn e, c') ↔ primitive m = true ∧ e = TypeError ∧ c' = c.
Proof.
  destruct (classic_object m) as [[fs ->]|Hn].
  - split; [|by intros [? _]]. unfold handleMessage.
    unfold isRpcResponse, isRpcRequest, isRpcNotification, js_in.
    destruct (bool_decide (is_Some (field "id" fs))),
      (bool_decide (is_Some (field "result" fs))),
      (bool_decide (is_Some (field "error" fs))),
      (bool_decide (is_Some (field "method" fs))); cbn [and_then or_else not_ negb];
      try done;
      try (by repeat case_match);
      try (intros H; by apply handleNotification_no_exn in H).
  - destruct m; try (by destruct (Hn fields)); simpl;
      (split; first [by intros [= <- <-] | done | by intros (? & ? & ?)
                    | by intros (_ & -> & ->)]).
Qed.

(** X10. The listener drops a blank line and a line that [JSON.parse]
    rejects: the client is unchanged and nothing is thrown.  But its
    [try]/[catch] covers the parsing only: a line that parses to a number, a
    string, a boolean or null makes the listener throw a [TypeError], with
    the client unchanged, and such lines are the only ones on which it
    throws. *)
Theorem line_listener_throws_iff JSON_parse line c :
  (trim line = "" ∨ JSON_parse line = None → onLine JSON_parse line c = (Ret tt, c)) ∧
  ((∃ e c', onLine JSON_parse line c = (Exn e, c')) ↔
   trim line ≠ "" ∧ ∃ v, JSON_parse line = Some v ∧ primitive v = true) ∧
  (∀ e c', onLine JSON_parse line c = (Exn e, c') → e = TypeError ∧ c' = c).
Proof.
  unfold onLine. split_and!.
  - intros [-> | ->]; [done|]. by case_decide.
  - case_decide as Ht.
    + split; [by intros (? & ? & ?)|by intros [? _]].
    + destruct (JSON_parse line) as [v|].
      * split.
        -- intros (e & c' & H%handleMessage_exn). split; [done|]. exists v. by destruct H.
        -- intros (_ & v' & [= <-] & Hv). exists TypeError, c. by apply handleMessage_exn.
      * split; [by intros (? & ? & ?)|by intros (_ & ? & ? & _)].
  - intros e c'. case_decide; [done|]. destruct (JSON_parse line); [|done].
    by intros (_ & ? & ?)%handleMessage_exn.
Qed.

Lemma line_listener_throws_iff_witness :
  onLine sample_parse "  " sample_client = (Ret tt, sample_client) ∧
  onLine sample_parse "{oops" sample_client = (Ret tt, sample_client) ∧
  ∃ e c', onLine sample_parse "5" sample_client = (Exn e, c').
Proof.
  destruct (line_listener_throws_iff sample_parse "  " sample_client) as (H1 & _ & _).
  destruct (line_listener_throws_iff sample_parse "{oops" sample_client) as (H2 & _ & _).
  destruct (line_listener_throws_iff sample_parse "5" sample_client) as (_ & H3 & _).
  split; [apply H1; left; reflexivity|]. split; [apply H2; right; reflexivity|].
  apply H3. split; [discriminate|]. exists (JNum 5). split; reflexivity.
Defined.

(** ** [threadStart] and [threadResume] *)

Lemma awaited_after_response {A} (resume : jsval → outcome A)
    c method params lines rid result err :
  reachable c → child c = Some {| stdin := Some lines |} →
  rid = IdNum (nextId c) ∨ rid = IdStr (pretty (nextId c)) →
  is_Some result ∨ is_Some err →
  awaited (nextId c) resume (sendRequest method params c).2 = None ∧
  ∃ c2,
    run [Line (encode (Response rid result err))] (sendRequest method params c).2 = Some c2 ∧
    awaited (nextId c) resume c2 =
      Some (match err with
            | Some e => Exn (Error (message e))
            | None => resume result
            end).
Proof.
  intros Hreach Hc Hrid Hsome.
  destruct (request_answered c method params lines rid result err Hreach Hc Hrid Hsome)
    as (c2 & Hrun & _ & Hp & _).
  pose proof (reachable_wf c Hreach) as Hwf.
  destruct (sendRequest_effect method params c) as (_ & _ & _ & _ & _ & _ & Hok & _).
  split.
  - unfold awaited, request_promise. rewrite Hok by eauto.
    rewrite request_calls_fresh; [done|apply Hwf|lia].
  - exists c2. split; [exact Hrun|]. unfold awaited. rewrite Hp. by destruct err.
Qed.

(** X11. [threadStart] and [threadResume], end to end, for a reachable
    client with open input stream.  The call waits while its request is
    unanswered.  When the Response carries an error, the call throws an error
    with that message.  When it carries a result, the call returns the
    [thread.id] found in it if that is truthy, and otherwise throws "codex
    app-server thread/start missing thread id", respectively "... thread/resume
    missing thread id". *)
Theorem thread_calls_return_thread_id c lines params threadId result err :
  reachable c → child c = Some {| stdin := Some lines |} →
  is_Some result ∨ is_Some err →
  let id := nextId c in
  let line := Line (encode (Response (IdNum id) result err)) in
  let expected (missing : string) :=
    Some (match err with
          | Some e => Exn (Error (message e))
          | None =>
              if truthy (get "id" (get "thread" result))
              then Ret (get "id" (get "thread" result))
              else Exn (Error missing)
          end) in
  ((threadStart_request params c).1 = id ∧
   awaited id threadStart_resume (threadStart_request params c).2 = None ∧
   ∃ c2, run [line] (threadStart_request params c).2 = Some c2 ∧
         awaited id threadStart_resume c2 =
           expected "codex app-server thread/start missing thread id") ∧
  ((threadResume_request threadId params c).1 = id ∧
   awaited id threadResume_resume (threadResume_request threadId params c).2 = None ∧
   ∃ c2, run [line] (threadResume_request threadId params c).2 = Some c2 ∧
         awaited id threadResume_resume c2 =
           expected "codex app-server thread/resume missing thread id").
Proof.
  intros Hreach Hc Hsome. cbv zeta. unfold threadStart_request, threadResume_request.
  split.
  - match goal with
    | |- (sendRequest ?m ?p c).1 = _ ∧ _ =>
        destruct (awaited_after_response threadStart_resume c m p lines
                    (IdNum (nextId c)) result err Hreach Hc (or_introl eq_refl) Hsome)
          as (Hw & c2 & Hrun & Ha);
        destruct (sendRequest_effect m p c) as (Hid & _)
    end.
    split_and!; [done..|]. exists c2. split; [done|]. rewrite Ha.
    unfold threadStart_resume. destruct err; [done|]. by destruct (truthy _).
  - match goal with
    | |- (sendRequest ?m ?p c).1 = _ ∧ _ =>
        destruct (awaited_after_response threadResume_resume c m p lines
                    (IdNum (nextId c)) result err Hreach Hc (or_introl eq_refl) Hsome)
          as (Hw & c2 & Hrun & Ha);
        destruct (sendRequest_effect m p c) as (Hid & _)
    end.
    split_and!; [done..|]. exists c2. split; [done|]. rewrite Ha.
    unfold threadResume_resume. destruct err; [done|]. by destruct (truthy _).
Qed.

Lemma thread_calls_return_thread_id_witness :
  ∃ c2,
    run [Line (encode (Response (IdNum 3) (Some (JObj [("thread", JObj [("id", JStr "t9")])]))
                        None))]
        (threadStart_request sample_thread_params sample_client).2 = Some c2 ∧
    awaited 3 threadStart_resume c2 = Some (Ret (Some (JStr "t9"))).
Proof.
  destruct (thread_calls_return_thread_id sample_client _ sample_thread_params "t0"
              (Some (JObj [("thread", JObj [("id", JStr "t9")])])) None
              sample_reachable eq_refl
              (or_introl (ex_intro _ (JObj [("thread", JObj [("id", JStr "t9")])]) eq_refl)))
    as [(_ & _ & c2 & Hrun & Ha) _].
  exists c2. split; [exact Hrun|exact Ha].
Defined.

(** * The process supervisor *)

Lemma sup_step_core e s s' :
  sup_step e s = Some s' → ∃ es, run es (core s) = Some (core s').
Proof.
  destruct e as [sp|p| |e]; simpl.
  - intros [= <-]. unfold start. destruct (started s); [by exists []|].
    destruct (startPromise s); [by exists []|]. unfold startInternal. simpl.
    destruct (has_stdout sp); simpl.
    + exists [Spawn (has_stdin sp); SendRequest "initialize" (Some initialize_params)].
      simpl. by destruct (sendRequest _ _ _).
    + by exists [Spawn (has_stdin sp)].
  - intros [= <-]. unfold resumeStart.
    destruct (suspended s !! p) as [[id|]|]; try (by exists []).
    destruct (request_promise id (core s)) as [[v|e]|]; try (by exists []).
    destruct (negb (truthy v)); [by exists []|].
    destruct (sendNotification "initialized" None (core s)) as [[[]|e|] c'] eqn:E;
      try (by exists []); exists [SendNotification "initialized" None]; simpl; by rewrite E.
  - intros [= <-]. by exists [Stop].
  - destruct e; try done; intros [c' [Hc ->]]%fmap_Some; simpl;
      match goal with
      | H : step ?e _ = Some _ |- _ => exists [e]; simpl in *; by rewrite H
      end.
Qed.

Lemma sup_reachable_core s : sup_reachable s → reachable (core s).
Proof.
  intros (o & es & Hrun).
  assert (reachable (core (new_supervisor o))) as H0 by (exists o, []; done).
  revert Hrun H0. generalize (new_supervisor o).
  induction es as [|e es IH]; intros s0; simpl.
  - by intros [= <-].
  - destruct (sup_step e s0) as [s1|] eqn:E; [|done]. intros Hrun H0.
    apply (IH s1 Hrun). destruct (sup_step_core e s0 s1 E) as [es' Hes'].
    by eapply reachable_run.
Qed.

Lemma handleMessage_response_child m c :
  isRpcResponse m = Ret true → child (handleMessage m c).2 = child c.
Proof.
  intros Hm. rewrite (handleMessage_response m c Hm). by repeat case_match.
Qed.

Lemma step_line_child m c c' :
  isRpcResponse m = Ret true → step (Line m) c = Some c' → child c' = child c.
Proof.
  intros Hm. pose proof (handleMessage_response_child m c Hm) as Hc. simpl.
  destruct (handleMessage m c) as [[] ?]; intros; by simplify_eq.
Qed.

Lemma run_send_then method params e c :
  run [SendRequest method params; e] c = step e (sendRequest method params c).2.
Proof. cbn [run step]. by destruct (step e _). Qed.

Lemma start_spawns s sp :
  started s = false → startPromise s = None → has_stdout sp = true →
  start sp s =
    (Awaits (nextStart s),
     {| core := (sendRequest "initialize" (Some initialize_params)
                   (set_child (Some {| stdin := if has_stdin sp then Some [] else None |})
                      (core s))).2;
        started := false; startPromise := Some (nextStart s); reader := true;
        suspended := <[nextStart s := AwaitInitialize (nextId (core s))]> (suspended s);
        startResults := startResults s; nextStart := S (nextStart s) |}).
Proof.
  intros Hst Hsp Hout. unfold start, startInternal. rewrite Hst, Hsp, Hout.
  cbn [negb core]. rewrite sendRequest_pair. reflexivity.
Qed.

Lemma start_without_stdout s sp :
  started s = false → startPromise s = None → has_stdout sp = false →
  start sp s =
    (Awaits (nextStart s),
     {| core := set_child (Some {| stdin := if has_stdin sp then Some [] else None |}) (core s);
        started := false; startPromise := Some (nextStart s); reader := reader s;
        suspended := delete (nextStart s) (suspended s);
        startResults :=
          <[nextStart s := Rejected (Error "codex app-server stdout unavailable")]>
            (startResults s);
        nextStart := S (nextStart s) |}).
Proof.
  intros Hst Hsp Hout. unfold start, startInternal. rewrite Hst, Hsp, Hout.
  cbn [negb core]. reflexivity.
Qed.

Lemma start_joins s sp p :
  started s = false → startPromise s = Some p → start sp s = (Awaits p, s).
Proof. intros Hst Hsp. unfold start. by rewrite Hst, Hsp. Qed.

(** The handshake up to the Response to [initialize]. *)
Lemma start_then_response s sp result err :
  sup_reachable s → started s = false → startPromise s = None →
  has_stdout sp = true → has_stdin sp = true →
  is_Some result ∨ is_Some err →
  ∃ s2,
    sup_run [CallStart sp;
             Inner (Line (encode (Response (IdNum (nextId (core s))) result err)))] s
      = Some s2 ∧
    started s2 = false ∧ startPromise s2 = Some (nextStart s) ∧ reader s2 = true ∧
    suspended s2 = <[nextStart s := AwaitInitialize (nextId (core s))]> (suspended s) ∧
    startResults s2 = startResults s ∧ nextStart s2 = S (nextStart s) ∧
    child (core s2) =
      Some {| stdin := Some [JObj [("jsonrpc", JStr "2.0"); ("id", JNum (nextId (core s)));
                                   ("method", JStr "initialize");
                                   ("params", initialize_params)]] |} ∧
    request_promise (nextId (core s)) (core s2) =
      Some (match err with
            | Some e => Rejected (Error (message e))
            | None => Fulfilled result
            end).
Proof.
  intros Hreach Hst Hsp Hout Hin Hsome.
  pose proof (sup_reachable_core s Hreach) as Hcore.
  set (c1 := set_child (Some {| stdin := Some [] |}) (core s)).
  assert (reachable c1) as Hc1
    by (eapply reachable_run; [exact Hcore|]; by instantiate (1 := [Spawn true])).
  destruct (request_answered c1 "initialize" (Some initialize_params) [] (IdNum (nextId c1))
              result err Hc1 eq_refl (or_introl eq_refl) Hsome)
    as (c2 & Hrun & _ & Hp & _).
  rewrite run_send_then in Hrun.
  assert (isRpcResponse (encode (Response (IdNum (nextId c1)) result err)) = Ret true) as Hresp.
  { destruct Hsome as [[r ->]|[e ->]]; [by destruct err|by destruct result]. }
  pose proof (step_line_child _ _ _ Hresp Hrun) as Hchild.
  exists (set_core c2
    {| core := (sendRequest "initialize" (Some initialize_params) c1).2;
       started := false; startPromise := Some (nextStart s); reader := true;
       suspended := <[nextStart s := AwaitInitialize (nextId (core s))]> (suspended s);
       startResults := startResults s; nextStart := S (nextStart s) |}).
  split.
  - cbn [sup_run sup_step]. rewrite (start_spawns s sp Hst Hsp Hout), Hin.
    cbn [snd core]. fold c1. change (nextId (core s)) with (nextId c1). by rewrite Hrun.
  - cbn [set_core core started startPromise reader suspended startResults nextStart].
    split_and!; first [done | rewrite Hchild; reflexivity].
Qed.

Lemma sup_run_app es tl s :
  sup_run (es ++ tl) s = match sup_run es s with Some s' => sup_run tl s' | None => None end.
Proof.
  revert s. induction es as [|e es IH]; intros s; [done|].
  change (sup_run ((e :: es) ++ tl) s) with
    (match sup_step e s with Some s' => sup_run (es ++ tl) s' | None => None end).
  change (sup_run (e :: es) s) with
    (match sup_step e s with Some s' => sup_run es s' | None => None end).
  destruct (sup_step e s); [apply IH|done].
Qed.

(** X12. The handshake of [start].  From a client that is neither started nor
    starting, [start] spawns the child and writes the [initialize] request;
    callers that call [start] meanwhile get the promise of this same attempt
    and nothing is spawned for them.  When the Response to [initialize]
    carries a truthy result the attempt goes on: it writes the [initialized]
    notification, and only then is the client [started] and the promise
    fulfilled.  The child's input then holds exactly these two lines, and
    [start] returns at once from now on. *)
Theorem start_handshake s result :
  sup_reachable s → started s = false → startPromise s = None →
  truthy (Some result) = true →
  let p := nextStart s in
  let id := nextId (core s) in
  ∃ s2 s4,
    sup_run [CallStart good_child;
             Inner (Line (encode (Response (IdNum id) (Some result) None)))] s = Some s2 ∧
    sup_run [ResumeStart p; ResumeStart p] s2 = Some s4 ∧
    started s2 = false ∧ startResults s2 !! p = startResults s !! p ∧
    (∀ sp, start sp s2 = (Awaits p, s2)) ∧
    started (resumeStart p s2) = false ∧
    started s4 = true ∧ startResults s4 !! p = Some (Fulfilled tt) ∧
    child (core s4) =
      Some {| stdin := Some
        [JObj [("jsonrpc", JStr "2.0"); ("id", JNum id); ("method", JStr "initialize");
               ("params", initialize_params)];
         JObj [("jsonrpc", JStr "2.0"); ("method", JStr "initialized")]] |} ∧
    (∀ sp, start sp s4 = (AlreadyStarted, s4)).
Proof.
  intros Hreach Hst Hsp Htruthy. cbv zeta.
  destruct (start_then_response s good_child (Some result) None Hreach Hst Hsp eq_refl eq_refl
              (or_introl (ex_intro _ result eq_refl)))
    as (s2 & Hrun & Hst2 & Hsp2 & _ & Hsus2 & Hres2 & _ & Hchild2 & Hprom2).
  assert (resumeStart (nextStart s) s2 =
    {| core := set_child (Some {| stdin := Some
          [JObj [("jsonrpc", JStr "2.0"); ("id", JNum (nextId (core s)));
                 ("method", JStr "initialize"); ("params", initialize_params)];
           JObj [("jsonrpc", JStr "2.0"); ("method", JStr "initialized")]] |}) (core s2);
       started := started s2; startPromise := startPromise s2; reader := reader s2;
       suspended := <[nextStart s := AwaitInitialized]> (suspended s2);
       startResults := startResults s2; nextStart := nextStart s2 |}) as Hs3.
  { unfold resumeStart. rewrite Hsus2, lookup_insert_eq, Hprom2, Htruthy. cbn [negb].
    unfold sendNotification, writeMessage. rewrite Hchild2. reflexivity. }
  exists s2. eexists. split; [exact Hrun|]. split.
  { cbn [sup_run sup_step]. rewrite Hs3. unfold resumeStart at 1. cbn [suspended].
    rewrite lookup_insert_eq. reflexivity. }
  rewrite Hs3. cbn [end_start started startResults core child set_child].
  split_and!; try done.
  - by rewrite Hres2.
  - intros sp. by apply start_joins.
  - apply lookup_insert_eq.
Qed.

Lemma start_handshake_witness :
  ∃ s4,
    sup_run [CallStart good_child;
             Inner (Line (encode (Response (IdNum 1) (Some (JObj [])) None)));
             ResumeStart 0; ResumeStart 0] (new_supervisor sample_opts) = Some s4 ∧
    started s4 = true.
Proof.
  assert (sup_reachable (new_supervisor sample_opts)) as Hreach.
  { exists sample_opts, []. reflexivity. }
  destruct (start_handshake (new_supervisor sample_opts) (JObj []) Hreach eq_refl eq_refl eq_refl)
    as (s2 & s4 & H1 & H2 & _ & _ & _ & _ & H4 & _).
  exists s4. split; [|exact H4].
  rewrite (sup_run_app [CallStart good_child;
     Inner (Line (encode (Response (IdNum 1) (Some (JObj [])) None)))]
     [ResumeStart 0; ResumeStart 0]).
  change (sup_run [CallStart good_child;
     Inner (Line (encode (Response (IdNum 1) (Some (JObj [])) None)))]
     (new_supervisor sample_opts) = Some s2) in H1.
  rewrite H1. exact H2.
Defined.

Lemma resumeStart_rejected s p id e :
  suspended s !! p = Some (AwaitInitialize id) →
  request_promise id (core s) = Some (Rejected e) →
  resumeStart p s = end_start p (Rejected e) s.
Proof. intros H1 H2. unfold resumeStart. by rewrite H1, H2. Qed.

Lemma resumeStart_falsy s p id result :
  suspended s !! p = Some (AwaitInitialize id) →
  request_promise id (core s) = Some (Fulfilled result) → truthy result = false →
  resumeStart p s = end_start p (Rejected (Error "codex app-server initialize failed")) s.
Proof. intros H1 H2 H3. unfold resumeStart. by rewrite H1, H2, H3. Qed.

(** X13. How an attempt to start fails.  From a client that is neither
    started nor starting, the promise of [start] is rejected
    - with "codex app-server stdout unavailable" at once, when the spawned
      child has no stdout (the child stays recorded and no reader is made);
    - with "codex app-server not running", when it has no stdin, since the
      [initialize] request cannot be written;
    - with the message of the error, when the Response to [initialize]
      carries an error;
    - with "codex app-server initialize failed", when that Response carries a
      falsy result.
    In each case the client is not started, [startPromise] still holds the
    promise of the failed attempt, and in the last two cases the
    [initialized] notification is never written. *)
Theorem start_failure_modes s sp :
  sup_reachable s → started s = false → startPromise s = None →
  let p := nextStart s in
  let id := nextId (core s) in
  let failed (s' : supervisor) (e : exn) :=
    started s' = false ∧ startPromise s' = Some p ∧
    suspended s' = delete p (suspended s) ∧
    startResults s' !! p = Some (Rejected e) in
  (has_stdout sp = false →
     failed (start sp s).2 (Error "codex app-server stdout unavailable") ∧
     child (core (start sp s).2) = Some {| stdin := if has_stdin sp then Some [] else None |} ∧
     reader (start sp s).2 = reader s) ∧
  (has_stdout sp = true → has_stdin sp = false →
     failed (resumeStart p (start sp s).2) (Error "codex app-server not running")) ∧
  (has_stdout sp = true → has_stdin sp = true →
     ∀ result err, is_Some result ∨ is_Some err → (err = None → truthy result = false) →
     ∃ s2,
       sup_run [CallStart sp; Inner (Line (encode (Response (IdNum id) result err)));
                ResumeStart p] s = Some s2 ∧
       failed s2 (match err with
                  | Some e => Error (message e)
                  | None => Error "codex app-server initialize failed"
                  end) ∧
       child (core s2) =
         Some {| stdin := Some [JObj [("jsonrpc", JStr "2.0"); ("id", JNum id);
                                      ("method", JStr "initialize");
                                      ("params", initialize_params)]] |}).
Proof.
  intros Hreach Hst Hsp. cbv zeta. split_and!.
  - intros Hout. rewrite (start_without_stdout s sp Hst Hsp Hout).
    cbn [snd started startPromise suspended startResults core child set_child reader].
    split_and!; try done. apply lookup_insert_eq.
  - intros Hout Hin. rewrite (start_spawns s sp Hst Hsp Hout). cbn [snd]. rewrite Hin.
    set (c1 := set_child (Some {| stdin := None |}) (core s)).
    destruct (sendRequest_effect "initialize" (Some initialize_params) c1)
      as (_ & _ & _ & _ & _ & _ & _ & Hfail & _).
    destruct Hfail as [_ Hcalls]; [by right|].
    erewrite resumeStart_rejected; [| apply lookup_insert_eq |].
    + cbn [end_start started startPromise suspended startResults].
      split_and!; try done; [apply delete_insert_eq | apply lookup_insert_eq].
    + cbn [core]. unfold request_promise. rewrite Hcalls.
      change (nextId c1) with (nextId (core s)).
      change (calls c1) with (calls (core s)).
      rewrite request_calls_same.
      rewrite (request_calls_fresh (core s) (nextId (core s))); [done| |lia].
      apply reachable_wf. by apply sup_reachable_core.
  - intros Hout Hin result err Hsome Hfalsy.
    destruct (start_then_response s sp result err Hreach Hst Hsp Hout Hin Hsome)
      as (s2 & Hrun & Hst2 & Hsp2 & _ & Hsus2 & Hres2 & _ & Hchild2 & Hprom2).
    assert (suspended s2 !! nextStart s = Some (AwaitInitialize (nextId (core s)))) as Hlook
      by (rewrite Hsus2; apply lookup_insert_eq).
    exists (end_start (nextStart s)
              (Rejected (match err with
                         | Some e => Error (message e)
                         | None => Error "codex app-server initialize failed"
                         end)) s2).
    split.
    { rewrite (sup_run_app [CallStart sp;
         Inner (Line (encode (Response (IdNum (nextId (core s))) result err)))]
         [ResumeStart (nextStart s)]), Hrun.
      cbn [sup_run sup_step]. f_equal. destruct err as [e|].
      - by apply (resumeStart_rejected _ _ (nextId (core s))).
      - apply (resumeStart_falsy _ _ (nextId (core s)) result); auto. }
    cbn [end_start started startPromise suspended startResults core].
    split_and!; try done.
    + rewrite Hsus2. apply delete_insert_eq.
    + apply lookup_insert_eq.
Qed.

Lemma start_failure_modes_witness :
  startResults (start {| has_stdout := false; has_stdin := true |}
                  (new_supervisor sample_opts)).2 !! 0
    = Some (Rejected (Error "codex app-server stdout unavailable")).
Proof.
  assert (sup_reachable (new_supervisor sample_opts)) as Hreach.
  { exists sample_opts, []. reflexivity. }
  destruct (start_failure_modes (new_supervisor sample_opts)
              {| has_stdout := false; has_stdin := true |} Hreach eq_refl eq_refl)
    as (H & _).
  destruct (H eq_refl) as ((_ & _ & _ & Hres) & _). exact Hres.
Defined.

Lemma sticky_step s e p err :
  started s = false → startPromise s = Some p → suspended s = ∅ →
  startResults s !! p = Some (Rejected err) →
  is_stop e = false →
  ∀ s', sup_step e s = Some s' →
  started s' = false ∧ startPromise s' = Some p ∧ suspended s' = ∅ ∧
  startResults s' !! p = Some (Rejected err) ∧ nextStart s' = nextStart s.
Proof.
  intros Hst Hsp Hsus Hres Hstop s' Hstep.
  destruct e as [sp|q| |e]; try discriminate.
  - cbn [sup_step] in Hstep. rewrite (start_joins s sp p Hst Hsp) in Hstep.
    by injection Hstep as <-.
  - cbn [sup_step] in Hstep. unfold resumeStart in Hstep.
    rewrite Hsus, lookup_empty in Hstep. by injection Hstep as <-.
  - assert ((λ c, set_core c s) <$> step e (core s) = Some s') as Hstep'
      by (destruct e; done).
    destruct (step e (core s)) as [c'|]; [|done]. by injection Hstep' as <-.
Qed.

(** X14. A failed start is sticky.  Once the promise of an attempt to start
    is rejected (and no earlier attempt is still in flight), nothing but
    [stop] clears [startPromise]: whatever else happens, the client stays
    not started and every call of [start] returns that same rejected promise
    without spawning anything.  After [stop], [start] makes a fresh attempt
    and spawns a child again. *)
Theorem failed_start_is_sticky s es s' p err :
  started s = false → startPromise s = Some p → suspended s = ∅ →
  startResults s !! p = Some (Rejected err) →
  sup_run es s = Some s' → existsb is_stop es = false →
  started s' = false ∧ startResults s' !! p = Some (Rejected err) ∧
  (∀ sp, start sp s' = (Awaits p, s')) ∧
  (∀ sp, (start sp (stop s')).1 = Awaits (nextStart s) ∧
         startPromise (start sp (stop s')).2 = Some (nextStart s) ∧
         is_Some (child (core (start sp (stop s')).2))).
Proof.
  intros Hst Hsp Hsus Hres Hrun Hstop.
  assert (started s' = false ∧ startPromise s' = Some p ∧ suspended s' = ∅ ∧
          startResults s' !! p = Some (Rejected err) ∧ nextStart s' = nextStart s)
    as (Hst' & Hsp' & Hsus' & Hres' & Hnext').
  { revert s Hst Hsp Hsus Hres Hrun Hstop.
    induction es as [|e es IH]; intros s Hst Hsp Hsus Hres Hrun Hstop.
    - injection Hrun as <-. done.
    - cbn [sup_run] in Hrun. cbn [existsb] in Hstop.
      apply orb_false_iff in Hstop as [He Hes].
      destruct (sup_step e s) as [s1|] eqn:Hstep; [|done].
      destruct (sticky_step s e p err Hst Hsp Hsus Hres He s1 Hstep)
        as (H1 & H2 & H3 & H4 & H5).
      rewrite <- H5. by apply (IH s1). }
  split_and!; try done.
  - intros sp. by apply start_joins.
  - intros sp. rewrite <- Hnext'.
    destruct (has_stdout sp) eqn:Hout.
    + rewrite (start_spawns (stop s') sp eq_refl eq_refl Hout). cbn [fst snd startPromise core].
      split_and!; try done.
      destruct (sendRequest_effect "initialize" (Some initialize_params)
                  (set_child (Some {| stdin := if has_stdin sp then Some [] else None |})
                     (core (stop s')))) as (_ & _ & _ & _ & _ & _ & _ & Hfail & _).
      destruct (has_stdin sp).
      * rewrite sendRequest_pair. unfold writeMessage. done.
      * destruct Hfail as [-> _]; [by right|]. done.
    + rewrite (start_without_stdout (stop s') sp eq_refl eq_refl Hout).
      cbn [fst snd startPromise core child set_child]. done.
Qed.

Lemma failed_start_is_sticky_witness :
  start good_child (start {| has_stdout := false; has_stdin := true |}
                      (new_supervisor sample_opts)).2
  = (Awaits 0, (start {| has_stdout := false; has_stdin := true |}
                  (new_supervisor sample_opts)).2).
Proof.
  destruct (failed_start_is_sticky
              (start {| has_stdout := false; has_stdin := true |}
                 (new_supervisor sample_opts)).2 []
              (start {| has_stdout := false; has_stdin := true |}
                 (new_supervisor sample_opts)).2 0
              (Error "codex app-server stdout unavailable")
              eq_refl eq_refl eq_refl eq_refl eq_refl eq_refl) as (_ & _ & H & _).
  exact (H good_child).
Defined.

(** ** The callers *)

Lemma existsb_app_server l :
  existsb (λ arg, String.eqb arg "app-server") l = true ↔ "app-server" ∈ l.
Proof.
  rewrite existsb_exists. split.
  - intros (x & Hin & ->%String.eqb_eq). by apply list_elem_of_In.
  - intros Hin. exists "app-server". split; [by apply list_elem_of_In|]. apply String.eqb_refl.
Qed.

(** X15. The arguments the runtime starts the child with always name the
    [app-server] subcommand: configured arguments that have it are passed as
    they are, others get it appended, so the configured arguments are always
    a prefix of what is passed, and applying the rule again changes
    nothing. *)
Theorem codexArgs_app_server raw :
  "app-server" ∈ codexArgs raw ∧
  default [] raw `prefix_of` codexArgs raw ∧
  ("app-server" ∈ default [] raw → codexArgs raw = default [] raw) ∧
  ("app-server" ∉ default [] raw → codexArgs raw = default [] raw ++ ["app-server"]) ∧
  codexArgs (Some (codexArgs raw)) = codexArgs raw.
Proof.
  unfold codexArgs. cbv zeta.
  destruct (existsb _ (default [] raw)) eqn:E.
  - pose proof (proj1 (existsb_app_server _) E) as Hin.
    change (default [] (Some (default [] raw))) with (default [] raw). rewrite E.
    split_and!; try done.
  - assert ("app-server" ∉ default [] raw) as Hn.
    { intros Hin%existsb_app_server. by rewrite Hin in E. }
    change (default [] (Some (default [] raw ++ ["app-server"])))
      with (default [] raw ++ ["app-server"]).
    assert (existsb (λ arg, String.eqb arg "app-server") (default [] raw ++ ["app-server"])
            = true) as ->.
    { apply existsb_app_server, elem_of_app. right. apply list_elem_of_singleton. done. }
    split_and!; try done.
    + apply elem_of_app. right. by apply list_elem_of_singleton.
    + by apply prefix_app_r.
Qed.

Lemma between_spec lo hi a :
  Heartbeat.between lo hi a = true ↔
  (Z.of_N (N_of_ascii lo) ≤ Z.of_N (N_of_ascii a) ≤ Z.of_N (N_of_ascii hi))%Z.
Proof.
  unfold Heartbeat.between. rewrite andb_true_iff, !N.leb_le. lia.
Qed.

Lemma ascii_eqb_code a b :
  Ascii.eqb a b = true ↔ Z.of_N (N_of_ascii a) = Z.of_N (N_of_ascii b).
Proof.
  rewrite Ascii.eqb_eq. split; [by intros ->|].
  intros H%N2Z.inj. rewrite <- (ascii_N_embedding a), <- (ascii_N_embedding b). by rewrite H.
Qed.

(** What [parseTimeMinutes] accepts: two digits, a colon, two digits, with
    the hour at most 24 and the minute at most 59. *)
Lemma parseTimeMinutes_Some raw allow24 m :
  Heartbeat.parseTimeMinutes raw allow24 = Some m →
  ∃ h1 h2 m1 m2 : ascii,
    raw = Some (String h1 (String h2 (String ":" (String m1 (String m2 EmptyString))))) ∧
    let d a := (Z.of_N (N_of_ascii a) - 48)%Z in
    (0 ≤ d h1 ≤ 9 ∧ 0 ≤ d h2 ≤ 9 ∧ 0 ≤ d m1 ≤ 5 ∧ 0 ≤ d m2 ≤ 9 ∧
     10 * d h1 + d h2 ≤ 24 ∧
     m = (10 * d h1 + d h2) * 60 + (10 * d m1 + d m2) ∧
     (10 * d h1 + d h2 = 24 → allow24 = true ∧ d m1 = 0 ∧ d m2 = 0))%Z.
Proof.
  unfold Heartbeat.parseTimeMinutes. destruct raw as [raw|]; [|done].
  destruct (String.eqb raw "" || negb (Heartbeat.ACTIVE_HOURS_PATTERN raw)) eqn:E; [done|].
  apply orb_false_iff in E as [_ E]. apply negb_false_iff in E.
  destruct raw as [|h1 [|h2 [|c [|m1 [|m2 [|? ?]]]]]]; try done.
  cbn [Heartbeat.ACTIVE_HOURS_PATTERN] in E.
  apply andb_true_iff in E as [E Hm]. apply andb_true_iff in E as [Hh Hc].
  apply andb_true_iff in Hm as [Hm1 Hm2].
  apply Ascii.eqb_eq in Hc as ->.
  apply between_spec in Hm1, Hm2.
  change (Z.of_N (N_of_ascii "0")) with 48%Z in *.
  change (Z.of_N (N_of_ascii "5")) with 53%Z in *.
  change (Z.of_N (N_of_ascii "9")) with 57%Z in *.
  assert ((48 ≤ Z.of_N (N_of_ascii h1) ≤ 50 ∧ 48 ≤ Z.of_N (N_of_ascii h2) ≤ 57 ∧
           10 * (Z.of_N (N_of_ascii h1) - 48) + (Z.of_N (N_of_ascii h2) - 48) ≤ 24)%Z)
    as (Hh1 & Hh2 & Hle).
  { apply orb_true_iff in Hh as [Hh|Hh]; [apply orb_true_iff in Hh as [Hh|Hh]|];
      apply andb_true_iff in Hh as [Ha Hb];
      first [apply between_spec in Ha | apply ascii_eqb_code in Ha];
      first [apply between_spec in Hb | apply ascii_eqb_code in Hb];
      change (Z.of_N (N_of_ascii "0")) with 48%Z in *;
      change (Z.of_N (N_of_ascii "1")) with 49%Z in *;
      change (Z.of_N (N_of_ascii "2")) with 50%Z in *;
      change (Z.of_N (N_of_ascii "3")) with 51%Z in *;
      change (Z.of_N (N_of_ascii "4")) with 52%Z in *;
      change (Z.of_N (N_of_ascii "9")) with 57%Z in *; lia. }
  assert (∀ a, (48 ≤ Z.of_N (N_of_ascii a) ≤ 57)%Z → Ascii.eqb a ":" = false) as Hnc.
  { intros a Ha. destruct (Ascii.eqb a ":") eqn:Ea; [|done].
    apply ascii_eqb_code in Ea. change (Z.of_N (N_of_ascii ":")) with 58%Z in Ea. lia. }
  assert (∀ a, (48 ≤ Z.of_N (N_of_ascii a) ≤ 57)%Z → Heartbeat.between "0" "9" a = true) as Hd.
  { intros a Ha. apply between_spec.
    change (Z.of_N (N_of_ascii "0")) with 48%Z. change (Z.of_N (N_of_ascii "9")) with 57%Z.
    lia. }
  cbn [Heartbeat.split].
  rewrite (Hnc h1), (Hnc h2), (Hnc m1), (Hnc m2) by lia.
  rewrite Ascii.eqb_refl.
  cbn [lookup list_lookup Heartbeat.Number Heartbeat.digits].
  rewrite (Hd h1), (Hd h2), (Hd m1), (Hd m2) by lia.
  intros Hres. exists h1, h2, m1, m2. split; [done|]. cbv zeta.
  destruct (Z.eqb_spec (10 * (10 * 0 + (Z.of_N (N_of_ascii h1) - 48))
                        + (Z.of_N (N_of_ascii h2) - 48)) 24) as [H24|H24].
  - destruct allow24; [|done]. cbn [negb orb] in Hres.
    destruct (Z.eqb_spec (10 * (10 * 0 + (Z.of_N (N_of_ascii m1) - 48))
                          + (Z.of_N (N_of_ascii m2) - 48)) 0) as [H0|H0]; [|done].
    cbn [negb] in Hres. injection Hres as <-. lia.
  - injection Hres as <-. lia.
Qed.

(** X16. What [parseTimeMinutes] returns is a minute of the day: between 0
    and 1440, and 1440 only for "24:00" when 24 is allowed (as it is for the
    end of the active hours, not for their start).  Two texts that it gives
    the same minute are the same text. *)
Theorem parseTimeMinutes_minute_of_day raw allow24 m :
  Heartbeat.parseTimeMinutes raw allow24 = Some m →
  (0 ≤ m ≤ 1440)%Z ∧
  (m = 1440%Z → raw = Some "24:00" ∧ allow24 = true) ∧
  (∀ raw' allow24', Heartbeat.parseTimeMinutes raw' allow24' = Some m → raw' = raw).
Proof.
  intros H. destruct (parseTimeMinutes_Some _ _ _ H) as (h1 & h2 & m1 & m2 & -> & Hd).
  cbv zeta in Hd. destruct Hd as (H1 & H2 & H3 & H4 & Hle & -> & H24).
  assert (∀ a b : ascii, Z.of_N (N_of_ascii a) = Z.of_N (N_of_ascii b) → a = b) as Hinj.
  { intros a b Hab. by apply Ascii.eqb_eq, ascii_eqb_code. }
  split_and!; [lia..| |].
  - intros Hm. assert (10 * (Z.of_N (N_of_ascii h1) - 48)
                       + (Z.of_N (N_of_ascii h2) - 48) = 24)%Z as Hh by lia.
    destruct (H24 Hh) as (-> & Hm1 & Hm2). split; [|done].
    rewrite (Hinj h1 "2"%char), (Hinj h2 "4"%char), (Hinj m1 "0"%char), (Hinj m2 "0"%char);
      [done|..];
      [change (Z.of_N (N_of_ascii "0")) with 48%Z; lia ..
      | change (Z.of_N (N_of_ascii "4")) with 52%Z; lia
      | change (Z.of_N (N_of_ascii "2")) with 50%Z; lia].
  - intros raw' allow24' H'.
    destruct (parseTimeMinutes_Some _ _ _ H') as (h1' & h2' & m1' & m2' & -> & Hd').
    cbv zeta in Hd'. destruct Hd' as (H1' & H2' & H3' & H4' & Hle' & Heq & _).
    rewrite (Hinj h1' h1), (Hinj h2' h2), (Hinj m1' m1), (Hinj m2' m2); [done|lia..].
Qed.

Lemma parseTimeMinutes_minute_of_day_witness :
  (0 ≤ 570 ≤ 1440)%Z ∧ Heartbeat.parseTimeMinutes (Some "09:30") false = Some 570%Z.
Proof.
  assert (Heartbeat.parseTimeMinutes (Some "09:30") false = Some 570%Z) as H by reflexivity.
  split; [|exact H].
  exact (proj1 (parseTimeMinutes_minute_of_day (Some "09:30") false 570 H)).
Defined.



